(** * PCClassify: training sampler, per-point inference, label writer, Gini split

    A shallow embedding of [src/classifier.hpp] ([getTrainingData],
    [classifyData]) and of [NodeGini::determine_best_threshold] from
    [src/vendor/ethz/random-forest/node-gini.hpp].

    Conventions of the embedding.
    - [std::vector]s are lists, read with stdpp's lookup and written with
      [<[i:=x]>] / [alter]; an access outside the vector is undefined
      behaviour in the source, the model reads a default or leaves the list
      alone there, and the theorems carry the in-range facts they need as
      hypotheses.
    - [int] labels are [Z]; [size_t] indices of points are [nat]; [size_t]
      counters are [Z] (they count points of one vector, so they stay below
      2^64; the one conversion that does wrap, [int maxSamples] to [size_t],
      is written out).
    - finite [float]/[double] values are rationals [Q]: comparisons of finite
      floats agree with comparisons of their values. The rounding of sums,
      quotients and of the Gini loss is not modelled, and the theorems state
      only what does not depend on it: which entries are written, integer
      counts, the form of the threshold, sums of a single term. The
      conversion of a [T] to [float] in the Graph-Cut path is the parameter
      [to_float]. Where the source can produce an infinity or a NaN
      ([-std::log], the initial [best_loss]) the value is an [xfloat]. *)

From Stdlib Require Import ZArith QArith Lia Lqa.
From stdpp Require Import base tactics option list sorting.

Local Open Scope nat_scope.

(** ** Numbers *)

Module Num.

(** [a < b] on finite floating-point values. *)
Definition Qltb (a b : Q) : bool := negb (Qle_bool b a).

(** A floating-point value that may be infinite or NaN. *)
Inductive xfloat : Type :=
| Fin (q : Q)
| PInf
| NInf
| NaN.

(** IEEE [<]: false as soon as one side is NaN. *)
Definition xltb (a b : xfloat) : bool :=
  match a, b with
  | NaN, _ | _, NaN => false
  | _, NInf => false
  | NInf, _ => true
  | PInf, _ => false
  | Fin _, PInf => true
  | Fin x, Fin y => Qltb x y
  end.

(** Unary minus. *)
Definition xneg (a : xfloat) : xfloat :=
  match a with
  | Fin q => Fin (- q)
  | PInf => NInf
  | NInf => PInf
  | NaN => NaN
  end.

End Num.
Import Num.

(** ** The point set and its labels *)

Module Data.

(** Modelled from the spec: [Label] and its colour are declared in
    [labels.hpp], which is not part of the sources; a label is a record
    of a name, an ASPRS code and an RGB colour (the name plays no role
    here). *)
Record Color : Type := mkColor { r : Z; g : Z; b : Z }.

Record Label : Type := mkLabel { getAsprsCode : Z; getColor : Color }.

(** Modelled from the spec: [PointSet] is declared in [point_io.hpp], which
    is not part of the sources. These are the fields of the data model that
    [getTrainingData] and [classifyData] use: [count] is [count()], the
    number of surface points, [base_labels] is [pointSet.base->labels]
    (filled by the inference stage), [spacing] the value of [spacing()]. *)
Record PointSet : Type := mkPointSet {
  count : nat;
  labels : list Z;
  colors : list Color;
  pointMap : list nat;
  base_labels : list Z;
  spacing : Q
}.

Definition set_labels (ps : PointSet) (l : list Z) : PointSet :=
  mkPointSet (count ps) l (colors ps) (pointMap ps) (base_labels ps) (spacing ps).

Definition set_colors (ps : PointSet) (c : list Color) : PointSet :=
  mkPointSet (count ps) (labels ps) c (pointMap ps) (base_labels ps) (spacing ps).

(** Modelled from the spec: [PointSet::hasLabels()] (same header) tells
    whether the surface carries a [labels] array at all, that is, whether
    the array is non-empty. *)
Definition hasLabels (ps : PointSet) : bool :=
  match labels ps with
  | [] => false
  | _ :: _ => true
  end.

(** Reading a vector at an [int] index: a negative [int] converts to a
    [size_t] beyond every vector. *)
Definition at_int {A} (l : list A) (i : Z) : option A :=
  if (0 <=? i)%Z then l !! Z.to_nat i else None.

(** Updating a vector in place at an [int] index. *)
Definition alter_at {A} (f : A -> A) (g : Z) (v : list A) : list A :=
  if (0 <=? g)%Z then alter f (Z.to_nat g) v else v.

(** [v[g]++] on counters that stay below 2^64. *)
Definition incr_at (g : Z) (v : list Z) : list Z := alter_at Z.succ g v.

End Data.
Import Data.

(** ** Per-point inference without regularization ([classifyData], lines 135-162) *)

Module Inference.

(** The search for the highest probability, lines 150-158: [j] is the
    loop index, [bestClass]/[bestClassVal] the running best. *)
Fixpoint best_loop (probs : list Q) (j bestClass : nat) (bestClassVal : Q)
  : nat * Q :=
  match probs with
  | [] => (bestClass, bestClassVal)
  | p :: rest =>
      if Qltb bestClassVal p
      then best_loop rest (S j) j p
      else best_loop rest (S j) bestClass bestClassVal
  end.

Definition findBest (probs : list Q) : nat := fst (best_loop probs 0 0 0%Q).

Section NoRegularization.
(** [features[f]->getValue(i)] and [evaluateFunc]: the evaluator fills
    the buffer [probs] from the feature vector [ft]. *)
Variable features : list (nat -> Q).
Variable evaluateFunc : list Q -> list Q.

Definition gather (i : nat) : list Q := map (fun f => f i) features.

(** One iteration of the loop of line 142. *)
Definition classify_point (baseLabels : list Z) (i : nat) : list Z :=
  let probs := evaluateFunc (gather i) in
  <[i := Z.of_nat (findBest probs)]> baseLabels.

(** Lines 133 and 135-162: [base->labels.resize(count)], then the
    sweep over the base points. *)
Definition classify_none (baseCount : nat) (baseLabels : list Z) : list Z :=
  fold_left classify_point (seq 0 baseCount) (resize baseCount 0%Z baseLabels).
End NoRegularization.

(** What "argmax, ties to the smallest index" means for a vector. *)
Definition first_argmax (probs : list Q) (b : nat) : Prop :=
  exists pb, probs !! b = Some pb
    /\ (forall j p, probs !! j = Some p -> (p <= pb)%Q)
    /\ (forall j p, j < b -> probs !! j = Some p -> (p < pb)%Q).

(** The state of the search after the prefix [pre] of the vector: either
    nothing has beaten the initial value 0 yet, or [b] is the first
    position of the largest value seen. *)
Definition best_inv (pre : list Q) (b : nat) (v : Q) : Prop :=
  (b = 0 /\ v = 0%Q /\ forall k p, pre !! k = Some p -> (p <= 0)%Q)
  \/ (pre !! b = Some v /\ (0 < v)%Q
      /\ (forall k p, pre !! k = Some p -> (p <= v)%Q)
      /\ (forall k p, k < b -> pre !! k = Some p -> (p < v)%Q)).

(** Two base points, one feature, three classes; point 1 has a tie between
    classes 1 and 2. *)
Definition demo_features : list (nat -> Q) := [fun i => inject_Z (Z.of_nat i)].
Definition demo_evaluate (ft : list Q) : list Q :=
  match ft with
  | [x] => if Qeq_bool x 0 then [1; 0; 0]%Q else [(1#5); (2#5); (2#5)]%Q
  | _ => [1; 0; 0]%Q
  end.

End Inference.

(** ** The Graph-Cut path ([classifyData], lines 224-352) *)

Module GraphCut.

(** [constexpr float strength = 0.2f] and [constexpr int neighbors = 12]. *)
Definition strength : Q := 2 # 10.
Definition neighbors : nat := 12.

Section Tiles.
(** [Point] and [Bbox3] with [Bbox3::contains] come from headers that are
    not part of the sources; the tiling only tests containment. *)
Context {Point Bbox3 : Type}.
Variable contains : Bbox3 -> Point -> bool.
(** [knnSearch s]: the [numMatches] indices (at most [neighbors]) that
    [index->knnSearch(&points[s][0], neighbors, nIndices, nDistances)]
    writes into [nIndices], in order. *)
Variable knnSearch : nat -> list nat.

(** Lines 270-278: the first box that contains [p], box 0 when none does. *)
Fixpoint first_containing (bboxes : list Bbox3) (j : nat) (p : Point) : nat :=
  match bboxes with
  | [] => 0
  | b :: rest => if contains b p then j else first_containing rest (S j) p
  end.

(** Lines 267-281, one point: [inputToIndices[i] = make_pair(i, idx)] and
    [indices[idx].push_back(i)]. *)
Definition assign_point (bboxes : list Bbox3)
    (st : list (list nat) * list (nat * nat)) (ip : nat * Point)
  : list (list nat) * list (nat * nat) :=
  let idx := first_containing bboxes 0 ip.2 in
  (alter (fun tile => tile ++ [ip.1]) idx st.1, <[ip.1 := (ip.1, idx)]> st.2).

(** Lines 264-281: [indices] has one entry per box ([nb] boxes are pushed),
    [inputToIndices] one entry per base point. *)
Definition assign_points (bboxes : list Bbox3) (points : list Point)
  : list (list nat) * list (nat * nat) :=
  fold_left (assign_point bboxes)
    (zip (seq 0 (length points)) points)
    (replicate (length bboxes) [], replicate (length points) (0, 0)).

(** Lines 308-319: the edges pushed for tile point [j] of tile [sub], whose
    base index is [s]; every edge is pushed with the weight [strength]. *)
Definition point_edges (inputToIndices : list (nat * nat)) (sub j s : nat)
  : list ((nat * nat) * Q) :=
  flat_map (fun neighbor =>
      let e := default (0, 0) (inputToIndices !! neighbor) in
      if (sub =? e.1) && negb (j =? e.2)
      then [((j, e.2), strength)]
      else [])
    (knnSearch s).

(** Lines 299-319 over a whole tile: [edges] zipped with [edgeWeights]. *)
Definition tile_edges (inputToIndices : list (nat * nat)) (sub : nat)
    (tile : list nat) : list ((nat * nat) * Q) :=
  concat (imap (fun j s => point_edges inputToIndices sub j s) tile).

(** The edge lists of all tiles, an empty tile yielding none (line 289). *)
Definition graph_edges (bboxes : list Bbox3) (points : list Point)
  : list (list ((nat * nat) * Q)) :=
  let st := assign_points bboxes points in
  imap (fun sub tile => tile_edges st.2 sub tile) st.1.

End Tiles.

Section Unary.
(** [std::log] on a positive finite argument, from the C library. *)
Variable ln : Q -> Q.

(** [std::log(value)] for a finite [value]: [-inf] at zero, NaN below. *)
Definition flog (value : Q) : xfloat :=
  if Qeq_bool value 0 then NInf
  else if Qltb value 0 then NaN
  else Fin (ln value).

(** Lines 329-342: the column [probabilityMatrix[.][j]] and the label
    [assignedLabel[j]] of one tile point. [values] holds the [float value]
    of line 333 for every class, that is, the evaluated [values[k]] after
    the conversion to [float] (which changes nothing when [T] is [float]);
    lines 334-341 read nothing else. *)
Fixpoint unary_loop (values : list Q) (k nbClassBest : nat) (valClassBest : Q)
  : list xfloat * nat :=
  match values with
  | [] => ([], nbClassBest)
  | value :: rest =>
      let cost := xneg (flog value) in
      let r :=
        if Qltb valClassBest value
        then unary_loop rest (S k) k value
        else unary_loop rest (S k) nbClassBest valClassBest in
      (cost :: r.1, r.2)
  end.

Definition point_unary (values : list Q) : list xfloat * nat :=
  unary_loop values 0 0 0%Q.

End Unary.

(** The edge list as the specification words it, for comparison with the
    code: an edge [(j, position of the neighbour within the tile)] for
    every neighbour that belongs to the tile of [j] at a position other
    than [j]. *)
Fixpoint position_in (tile : list nat) (pos p : nat) : option nat :=
  match tile with
  | [] => None
  | s :: rest => if s =? p then Some pos else position_in rest (S pos) p
  end.

Definition spec_point_edges (knnSearch : nat -> list nat) (tile : list nat)
    (j s : nat) : list ((nat * nat) * Q) :=
  flat_map (fun neighbor =>
      match position_in tile 0 neighbor with
      | Some pos => if negb (pos =? j) then [((j, pos), strength)] else []
      | None => []
      end)
    (knnSearch s).

Definition spec_graph_edges {Point Bbox3 : Type}
    (contains : Bbox3 -> Point -> bool) (knnSearch : nat -> list nat)
    (bboxes : list Bbox3) (points : list Point)
  : list (list ((nat * nat) * Q)) :=
  map (fun tile => concat (imap (spec_point_edges knnSearch tile) tile))
    (assign_points contains bboxes points).1.

(** A stand-in for the library logarithm in examples (exact at 1). *)
Definition demo_ln (x : Q) : Q := x - 1.

(** Sample data: five base points whose bounding box is the unit square,
    which lines 236-258 cut into [nbX = 3] by [nbY = 2] tiles (tile
    [2 x + y] is column [x], row [y]). Points 0 and 2 lie in tile 1, point
    1 in tile 2, point 3 in tile 0 and point 4 in tile 5. [demo_knn] lists
    all five points by distance from the query point. *)
Definition demo_contains (box : (Q * Q) * (Q * Q)) (p : Q * Q) : bool :=
  Qle_bool box.1.1 p.1 && Qle_bool p.1 box.2.1
  && Qle_bool box.1.2 p.2 && Qle_bool p.2 box.2.2.
Definition demo_bboxes : list ((Q * Q) * (Q * Q)) :=
  [ ((0, 0), (1 # 3, 1 # 2));         ((0, 1 # 2), (1 # 3, 1));
    ((1 # 3, 0), (2 # 3, 1 # 2));     ((1 # 3, 1 # 2), (2 # 3, 1));
    ((2 # 3, 0), (1, 1 # 2));         ((2 # 3, 1 # 2), (1, 1)) ]%Q.
Definition demo_points : list (Q * Q) :=
  [ (3 # 10, 55 # 100); (4 # 10, 45 # 100); (1 # 10, 8 # 10);
    (0, 0); (1, 1) ]%Q.
Definition demo_knn (s : nat) : list nat :=
  match s with
  | 0 => [0; 1; 2; 3; 4]
  | 1 => [1; 0; 2; 3; 4]
  | 2 => [2; 0; 1; 3; 4]
  | 3 => [3; 1; 0; 2; 4]
  | _ => [4; 1; 0; 2; 3]
  end.

End GraphCut.

(** ** The label writer ([classifyData], lines 357-404) *)

Module Writer.

(** Lines 358-362: [skipMap] has 255 entries; codes 0..255 pass the test
    (the write at 255 falls outside the vector, where the model leaves the
    map as it is; [skipMap_in_bounds] below excludes it). *)
Definition skip_step (skipMap : list bool) (skipClass : Z) : list bool :=
  if (0 <=? skipClass)%Z && (skipClass <=? 255)%Z
  then <[Z.to_nat skipClass := true]> skipMap
  else skipMap.

Definition build_skipMap (skip : list Z) : list bool :=
  fold_left skip_step skip (replicate 255 false).

Section WriteBack.
(** [LABEL_UNCLASSIFIED] and the table of [getTrain2AsprsCodes()] come from
    [labels.hpp], which is not part of the sources. *)
Variable LABEL_UNCLASSIFIED : Z.
Variable train2asprsCodes : Z -> Z.
Variable labelSet : list Label.
Variables useColors unclassifiedOnly : bool.
Variable skipMap : list bool.

(** Lines 370-373: the label of the class inferred for surface point [i]. *)
Definition best_label (ps : PointSet) (i : nat) : Label :=
  let idx := default 0 (pointMap ps !! i) in
  let bestClass := default 0%Z (base_labels ps !! idx) in
  default (mkLabel 0 (mkColor 0 0 0)) (at_int labelSet bestClass).

(** Lines 379-387: the flag [update]. *)
Definition update_flag (ps : PointSet) (i : nat) : bool :=
  let update := true in
  let hasLabels := hasLabels ps in
  let update :=
    if unclassifiedOnly && hasLabels
       && negb (default 0 (labels ps !! i) =? LABEL_UNCLASSIFIED)%Z
    then false else update in
  let asprsCode := getAsprsCode (best_label ps i) in
  let update :=
    if default false (at_int skipMap asprsCode) then false else update in
  update.

(** Lines 369-404, one iteration. *)
Definition write_point (ps : PointSet) (i : nat) : PointSet :=
  let label := best_label ps i in
  if update_flag ps i then
    if useColors
    then set_colors ps (<[i := getColor label]> (colors ps))
    else set_labels ps (<[i := getAsprsCode label]> (labels ps))
  else if hasLabels ps then
    set_labels ps
      (<[i := train2asprsCodes (default 0%Z (labels ps !! i))]> (labels ps))
  else ps.

(** The value that one iteration leaves in [labels[i]] when it held [cur]. *)
Definition label_after (ps : PointSet) (i : nat) (cur : Z) : Z :=
  if update_flag ps i then
    if useColors then cur else getAsprsCode (best_label ps i)
  else if hasLabels ps then train2asprsCodes cur else cur.

(** Two states of the point set in which iteration [i] takes the same
    decisions. *)
Definition same_view (ps ps' : PointSet) (i : nat) : Prop :=
  pointMap ps = pointMap ps' /\ base_labels ps = base_labels ps'
  /\ hasLabels ps = hasLabels ps' /\ labels ps !! i = labels ps' !! i.

(** The value that one iteration leaves in [colors[i]] when it held [c]. *)
Definition color_after (ps : PointSet) (i : nat) (c : Color) : Color :=
  if update_flag ps i && useColors
  then getColor (best_label ps i) else c.

End WriteBack.

(** Lines 357-404: the resize of a missing [labels] array (not in colour
    mode), the skip map, and the sweep over the surface points. The
    statistics of [evaluate] mode read the arrays and write none of them;
    they are left out. *)
Definition write_labels (LABEL_UNCLASSIFIED : Z) (train2asprsCodes : Z -> Z)
    (labelSet : list Label) (useColors unclassifiedOnly : bool)
    (skip : list Z) (ps : PointSet) : PointSet :=
  let ps1 :=
    if negb useColors && negb (hasLabels ps)
    then set_labels ps (resize (count ps) 0%Z (labels ps))
    else ps in
  fold_left
    (write_point LABEL_UNCLASSIFIED train2asprsCodes labelSet
       useColors unclassifiedOnly (build_skipMap skip))
    (seq 0 (count ps)) ps1.

(** The inferred class of every surface point names a label of the label
    set: [pointMap[i]] is a base point and [base->labels] holds a training
    code there (the invariants of the data model). *)
Definition classes_in_range (labelSet : list Label) (ps : PointSet) : Prop :=
  forall i, i < count ps ->
    exists idx bestClass label,
      pointMap ps !! i = Some idx
      /\ base_labels ps !! idx = Some bestClass
      /\ at_int labelSet bestClass = Some label.

(** The accesses to [skipMap] of lines 361 and 387 stay within its 255
    entries: every label of the label set has an ASPRS code in 0..254 and
    the skip list does not hold the code 255. *)
Definition skipMap_in_bounds (labelSet : list Label) (skip : list Z) : Prop :=
  (forall l, l ∈ labelSet -> (0 <= getAsprsCode l < 255)%Z)
  /\ 255%Z ∉ skip.

(** Sample data: one class "ground" (training code 0, ASPRS code 2), ASPRS
    code 1 for "unclassified", and a two-point surface labelled ground. *)
Definition demo_unclassified : Z := 1.
Definition demo_train2asprs (t : Z) : Z := if (t =? 0)%Z then 2 else 1.
Definition demo_labelSet : list Label := [mkLabel 2 (mkColor 192 192 192)].
Definition demo_ps : PointSet :=
  mkPointSet 2 [0; 0]%Z [mkColor 0 0 0; mkColor 0 0 0] [0; 0] [0%Z] (1 # 2).

End Writer.

(** ** The training sampler ([getTrainingData], lines 21-111) *)

Module Training.

(** The calls that [getTrainingData] makes to its collaborators, in order:
    [computeScales(numScales, pointSet, *startResolution, radius)] for file
    [file], [init(features.size(), labels.size())], and
    [storeFeatures(features, idx, g)] with the features of file [file]. *)
Inductive call : Type :=
| ComputeScales (file : nat) (startResolution : Q)
| Init (numFeatures numLabels : nat)
| StoreFeatures (file idx : nat) (g : Z).

Definition SIZE_MAX : Z := 2 ^ 64 - 1.

(** The conversion of an [int] to [size_t]. *)
Definition size_t_of_int (n : Z) : Z := n mod 2 ^ 64.

(** The state of the candidate loop of lines 63-79. *)
Record candidates : Type := mkCandidates {
  cnt : list Z;
  sampled : list bool;
  idxes : list (nat * Z)
}.

(** Lines 81-85; [count] has one entry per label. *)
Definition samplesPerLabel (count : list Z) (maxSamples : Z) : Z :=
  let samplesPerLabel :=
    fold_left
      (fun spl c => if (0 <? c)%Z then Z.min c spl else spl)
      count SIZE_MAX in
  Z.min samplesPerLabel (size_t_of_int maxSamples).

(** Lines 94-101, one candidate: [added] and the calls of [storeFeatures]
    made so far. *)
Definition emit_step (samplesPerLabel : Z)
    (st : list Z * list (nat * Z)) (p : nat * Z) : list Z * list (nat * Z) :=
  if (default 0%Z (at_int st.1 p.2) <? samplesPerLabel)%Z
  then (incr_at p.2 st.1, st.2 ++ [p])
  else st.

Section Sampler.
(** [LABEL_UNASSIGNED], the number of labels of [getTrainingLabels()] and
    the table of [getAsprs2TrainCodes()] come from [labels.hpp], which is
    not part of the sources. *)
Variable LABEL_UNASSIGNED : Z.
Variable numLabels : nat.
Variable asprsToTrain : Z -> Z.
(** [numFeatures ps res]: the size of [getFeatures(computeScales(...))] for
    the point set at the starting resolution [res]. *)
Variable numFeatures : PointSet -> Q -> nat.
(** [shuffle i l]: the order in which [std::shuffle], seeded afresh from
    [std::random_device], leaves the candidates [l] of file [i]. *)
Variable shuffle : nat -> list (nat * Z) -> list (nat * Z).
Variable maxSamples : Z.
Variable asprsClasses : list Z.

(** Lines 32-42. *)
Definition trainSubset : bool :=
  match asprsClasses with
  | [] => false
  | _ :: _ => true
  end.

Definition trainClass : list bool :=
  fold_left
    (fun tc c =>
       if (0 <=? asprsToTrain c)%Z
       then <[Z.to_nat (asprsToTrain c) := true]> tc else tc)
    asprsClasses (replicate 255 false).

(** Lines 67-79, one surface point. *)
Definition collect_point (ps : PointSet) (st : candidates) (i : nat)
  : candidates :=
  let g := default 0%Z (labels ps !! i) in
  if (g =? LABEL_UNASSIGNED)%Z then st
  else if trainSubset && negb (default false (at_int trainClass g)) then st
  else
    let idx := default 0 (pointMap ps !! i) in
    if default false (sampled st !! idx) then st
    else mkCandidates (incr_at g (cnt st))
                      (<[idx := true]> (sampled st))
                      (idxes st ++ [(idx, g)]).

(** Lines 63-79. *)
Definition collect (ps : PointSet) : candidates :=
  fold_left (collect_point ps) (seq 0 (count ps))
    (mkCandidates (replicate numLabels 0%Z) (replicate (count ps) false) []).

(** Lines 86-101: the calls of [storeFeatures], as pairs [(idx, g)]. *)
Definition emit (samplesPerLabel : Z) (shuffled : list (nat * Z))
  : list (nat * Z) :=
  (fold_left (emit_step samplesPerLabel) shuffled
     (replicate numLabels 0%Z, [])).2.

(** Lines 63-101 for file [i]. *)
Definition sample_file (i : nat) (ps : PointSet) : list (nat * Z) :=
  let c := collect ps in
  emit (samplesPerLabel (cnt c) maxSamples) (shuffle i (idxes c)).

(** Lines 44-110, one file: the state is [*startResolution] and the calls
    made so far. *)
Definition file_step (st : Q * list call) (i : nat) (ps : PointSet)
  : Q * list call :=
  if negb (hasLabels ps) then st
  else
    let startResolution :=
      if Qeq_bool st.1 (-1) then spacing ps else st.1 in
    let calls := st.2 ++ [ComputeScales i startResolution] in
    let calls :=
      if i =? 0
      then calls ++ [Init (numFeatures ps startResolution) numLabels]
      else calls in
    (startResolution,
     calls ++ map (fun p => StoreFeatures i p.1 p.2) (sample_file i ps)).

Fixpoint files_loop (i : nat) (files : list PointSet) (st : Q * list call)
  : Q * list call :=
  match files with
  | [] => st
  | ps :: rest => files_loop (S i) rest (file_step st i ps)
  end.

(** [getTrainingData]: [files] are the point sets that [readPointSet]
    returns for the file names, in order. *)
Definition getTrainingData (files : list PointSet) (startResolution : Q)
  : Q * list call :=
  files_loop 0 files (startResolution, []).

End Sampler.

(** The number of candidates, or of stored samples, of class [c]. *)
Definition of_class (c : Z) (l : list (nat * Z)) : Z :=
  Z.of_nat (length (filter (fun p => p.2 = c) l)).

(** "min over non-empty classes of count[c]", the empty minimum being the
    largest [size_t]. *)
Definition min_nonempty (count : list Z) : Z :=
  foldr Z.min SIZE_MAX (filter (fun c => (0 < c)%Z) count).

(** [count[c]] is the number of candidates of class [c]. *)
Definition counted (numLabels : nat) (st : candidates) : Prop :=
  forall c, (0 <= c < Z.of_nat numLabels)%Z ->
    at_int (cnt st) c = Some (of_class c (idxes st)).

(** After the candidates [pre], every class has received
    [min(candidates, quota)] samples, and [added] counts them. *)
Definition emitted (numLabels : nat) (spl : Z) (pre : list (nat * Z))
    (st : list Z * list (nat * Z)) : Prop :=
  forall c, (0 <= c < Z.of_nat numLabels)%Z ->
    at_int st.1 c = Some (of_class c st.2)
    /\ of_class c st.2 = Z.min (of_class c pre) spl.

Definition is_init (c : call) : bool :=
  match c with
  | Init _ _ => true
  | _ => false
  end.

(** The arrays of a labelled file as the loops of lines 67-101 expect them:
    one label and one [pointMap] entry per surface point, every
    [pointMap] entry a point index, every label [LABEL_UNASSIGNED] or a
    training code below the number of labels. *)
Definition sampler_input_ok (LABEL_UNASSIGNED : Z) (numLabels : nat)
    (ps : PointSet) : Prop :=
  length (labels ps) = count ps
  /\ length (pointMap ps) = count ps
  /\ (forall i idx, pointMap ps !! i = Some idx -> idx < count ps)
  /\ (forall i g, labels ps !! i = Some g ->
        g = LABEL_UNASSIGNED \/ (0 <= g < Z.of_nat numLabels)%Z).

(** Sample data: two labels, label 255 for "unassigned"; a file without
    labels, and two labelled files of different spacing. *)
Definition demo_unassigned : Z := 255.
Definition demo_numFeatures (ps : PointSet) (res : Q) : nat := 3.
Definition demo_shuffle (i : nat) (l : list (nat * Z)) : list (nat * Z) :=
  rev l.
Definition demo_unlabelled : PointSet :=
  mkPointSet 2 [] [] [0; 1] [] (1 # 4).
Definition demo_labelled : PointSet :=
  mkPointSet 5 [0; 1; 1; 255; 1]%Z [] [0; 1; 2; 3; 4] [] (1 # 2).
Definition demo_labelled' : PointSet :=
  mkPointSet 2 [1; 0]%Z [] [0; 1] [] (3 # 4).

End Training.

(** ** The split threshold of a Gini node ([node-gini.hpp], lines 28-70) *)

Module Gini.

(** [uint64_t] arithmetic. *)
Definition u64 (n : Z) : Z := n mod 2 ^ 64.

(** Lines 28-31: [std::inner_product] of the frequencies with themselves,
    accumulated in a [uint64_t]. *)
Definition gini_square_term (frequencies : list Z) : Z :=
  fold_left (fun acc f => u64 (acc + f * f)) frequencies 0%Z.

(** [operator<] of [std::pair<FeatureType, int>], by which line 50 sorts. *)
Definition pair_ltb (x y : Q * Z) : bool :=
  Qltb x.1 y.1 || (negb (Qltb y.1 x.1) && (x.2 <? y.2)%Z).

(** The order that [std::sort] leaves between an element and a later one. *)
Definition pair_le (x y : Q * Z) : Prop := pair_ltb y x = false.

#[global] Instance pair_le_dec : RelDecision pair_le.
Proof. intros x y. unfold pair_le. apply _. Defined.

(** The variables of the function while it scans the sorted data. *)
Record scan_state (RandomGen : Type) : Type := mkScan {
  classes_l : list Z;
  classes_r : list Z;
  n_l : Q;
  n_r : Q;
  best_loss : xfloat;
  best_thresh : Q;
  gen : RandomGen
}.
Arguments mkScan {RandomGen}.
Arguments classes_l {RandomGen}.
Arguments classes_r {RandomGen}.
Arguments n_l {RandomGen}.
Arguments n_r {RandomGen}.
Arguments best_loss {RandomGen}.
Arguments best_thresh {RandomGen}.
Arguments gen {RandomGen}.

Section NodeGini.
(** [RandomGen] and [UnitDist] come from [common-libraries.hpp], which is
    not part of the sources: [fraction_dist g] is the number that
    [fraction_dist(gen)] draws in state [g], with the next state. *)
Context {RandomGen : Type}.
Variable fraction_dist : RandomGen -> Q * RandomGen.
(** [params->n_classes]. *)
Variable n_classes : nat.

(** Lines 62-67: the loss of the split between [prev] and [cur], and the new
    best when it improves (the loss is exact: its rounding in [double] is
    not modelled, so the model says which splits are candidates and what
    form the threshold has, not which candidate wins). *)
Definition try_split (prev cur : Q * Z) (st : scan_state RandomGen)
  : scan_state RandomGen :=
  let gini :=
    (n_l st - inject_Z (gini_square_term (classes_l st)) * 1 / n_l st
     + n_r st - inject_Z (gini_square_term (classes_r st)) * 1 / n_r st)%Q in
  if xltb (Fin gini) (best_loss st) then
    let draw := fraction_dist (gen st) in
    let fraction := draw.1 in
    mkScan (classes_l st) (classes_r st) (n_l st) (n_r st)
      (Fin gini)
      (fraction * prev.1 + (1 - fraction) * cur.1)%Q
      draw.2
  else st.

(** Lines 53-67, the body of the loop at [i_point], with
    [prev = data_points[i_point-1]] and [cur = data_points[i_point]]. *)
Definition scan_step (prev cur : Q * Z) (st : scan_state RandomGen)
  : scan_state RandomGen :=
  let cls := prev.2 in
  let st :=
    mkScan (alter_at (fun c => u64 (c + 1)) cls (classes_l st))
           (alter_at (fun c => u64 (c - 1)) cls (classes_r st))
           (n_l st + 1)%Q (n_r st - 1)%Q
           (best_loss st) (best_thresh st) (gen st) in
  if Qeq_bool prev.1 cur.1 then st else try_split prev cur st.

(** Lines 52-68. *)
Fixpoint scan (prev : Q * Z) (rest : list (Q * Z)) (st : scan_state RandomGen)
  : scan_state RandomGen :=
  match rest with
  | [] => st
  | cur :: rest' => scan cur rest' (scan_step prev cur st)
  end.

(** Lines 37-48: the initial values, all samples counted on the right. *)
Definition initial (data_points : list (Q * Z)) (g : RandomGen)
  : scan_state RandomGen :=
  mkScan (replicate n_classes 0%Z)
         (fold_left (fun v p => alter_at (fun c => u64 (c + 1)) p.2 v)
            data_points (replicate n_classes 0%Z))
         0%Q
         (inject_Z (Z.of_nat (length data_points)))
         PInf 0%Q g.

(** Lines 32-70. The result [(best_thresh, best_loss)] is read off the
    final state, which also holds [classes_l], [classes_r] and the
    generator as the function leaves them. *)
Definition determine_best_threshold (data_points : list (Q * Z))
    (g : RandomGen) : scan_state RandomGen :=
  let st := initial data_points g in
  match merge_sort pair_le data_points with
  | [] => st
  | first :: rest => scan first rest st
  end.

End NodeGini.

(** [a] and [b] stand next to each other in [l], [a] first. *)
Definition adjacent (l : list (Q * Z)) (a b : Q * Z) : Prop :=
  exists i, l !! i = Some a /\ l !! S i = Some b.

(** What the best split is after the scan has gone through [seen]: still
    the initial one while all neighbours had equal values, and otherwise a
    point between two neighbours of different value. *)
Definition best_ok {RandomGen : Type} (seen : list (Q * Z))
    (st : scan_state RandomGen) : Prop :=
  (best_loss st = PInf /\ best_thresh st = 0%Q
   /\ forall a b, adjacent seen a b -> (a.1 == b.1)%Q)
  \/ (exists loss a b fraction,
        best_loss st = Fin loss /\ adjacent seen a b /\ ~ (a.1 == b.1)%Q
        /\ (0 <= fraction <= 1)%Q
        /\ best_thresh st = (fraction * a.1 + (1 - fraction) * b.1)%Q).

(** Sample data: a generator that counts its draws and yields 1/4, 1/2,
    3/4, 0, ... ; five samples of two classes. *)
Definition demo_fraction (g : nat) : Q * nat :=
  (match g mod 4 with
   | 0 => (1 # 4)%Q
   | 1 => (1 # 2)%Q
   | 2 => (3 # 4)%Q
   | _ => 0%Q
   end, S g).
Definition demo_data : list (Q * Z) :=
  [(3, 1%Z); (1, 0%Z); (2, 0%Z); (1, 0%Z); (4, 1%Z)]%Q.

End Gini.

(** ** The training sampler: which surface points become candidates *)

Module SamplerSpec.
Import Training.

Section Eligible.
Variable LABEL_UNASSIGNED : Z.
Variable asprsToTrain : Z -> Z.
Variable asprsClasses : list Z.

(** The two tests of lines 69-70 that a label [g] has to pass. *)
Definition eligible (g : Z) : bool :=
  negb (g =? LABEL_UNASSIGNED)%Z
  && negb (trainSubset asprsClasses
           && negb (default false
                      (at_int (trainClass asprsToTrain asprsClasses) g))).

(** Surface point [j] is the first eligible surface point of the
    working-set point [idx], and carries the label [g]. *)
Definition first_eligible (ps : PointSet) (j idx : nat) (g : Z) : Prop :=
  pointMap ps !! j = Some idx /\ labels ps !! j = Some g
  /\ eligible g = true
  /\ forall j' g', j' < j -> pointMap ps !! j' = Some idx ->
       labels ps !! j' = Some g' -> eligible g' = false.

(** The state of the candidate loop after the surface points [0..k-1]. *)
Definition collected (ps : PointSet) (k : nat) (st : candidates) : Prop :=
  length (sampled st) = count ps
  /\ NoDup (idxes st).*1
  /\ (forall idx, sampled st !! idx = Some true <-> idx ∈ (idxes st).*1)
  /\ (forall j idx g, j < k -> pointMap ps !! j = Some idx ->
        labels ps !! j = Some g -> eligible g = true ->
        idx ∈ (idxes st).*1)
  /\ (forall idx g, (idx, g) ∈ idxes st <->
        exists j, j < k /\ first_eligible ps j idx g).

End Eligible.

(** The files for which [computeScales] is called, in the order of the
    calls. *)
Definition scales_files (calls : list call) : list nat :=
  omap (fun c => match c with
                 | ComputeScales i _ => Some i
                 | _ => None
                 end) calls.

(** The indices, counted from [k], of the files that have labels. *)
Fixpoint labelled_from (k : nat) (files : list PointSet) : list nat :=
  match files with
  | [] => []
  | ps :: rest =>
      if hasLabels ps then k :: labelled_from (S k) rest
      else labelled_from (S k) rest
  end.

End SamplerSpec.

(** ** The Graph-Cut path: tiles, solver call and write-back *)

Module GraphCutRun.
Import GraphCut.

Section Run.
Context {Point Bbox3 : Type}.
Variable contains : Bbox3 -> Point -> bool.
Variable knnSearch : nat -> list nat.
Variable features : list (nat -> Q).
Variable evaluateFunc : list Q -> list Q.
Variable ln : Q -> Q.
(** The conversion of a [T] to [float] in [float value = values[k]] (line
    333): the identity when [T] is [float], the rounding to [float] when
    [T] is [double]. *)
Variable to_float : Q -> Q.
(** [labels.size()]. *)
Variable numLabels : nat.
(** [alphaExpansionGraphcut] is only declared in the sources (lines
    113-117). [alphaExpansionGraphcut edges matrix assigned] stands for
    the contents of [assignedLabel] after the call of line 345, given the
    edges with their weights, the matrix of unary costs and the initial
    labels. *)
Variable alphaExpansionGraphcut :
  list ((nat * nat) * Q) -> list (list xfloat) -> list nat -> list nat.

(** The tile of base point [i]: the first box that contains it. *)
Definition tileOf (bboxes : list Bbox3) (points : list Point) (i : nat)
  : nat :=
  match points !! i with
  | Some p => first_containing contains bboxes 0 p
  | None => 0
  end.

(** Lines 321-343 for the points of a tile: per point, the column of
    unary costs and the initial label, computed from the evaluated values
    converted to [float] (line 333). *)
Definition tile_unary (tile : list nat) : list (list xfloat * nat) :=
  map (fun s =>
         point_unary ln
           (map to_float (evaluateFunc (Inference.gather features s))))
    tile.

(** [probabilityMatrix]: one row per label and one column per tile point,
    filled with 0 (line 294) and set at [[k][j]] by line 334. *)
Definition probabilityMatrix (columns : list (list xfloat))
  : list (list xfloat) :=
  map (fun k => map (fun col => default (Fin 0) (col !! k)) columns)
    (seq 0 numLabels).

(** Lines 346-347: [labels[indices[sub][i]] = assignedLabel[i]]. *)
Definition write_tile (tile : list nat) (assigned : list nat)
    (baseLabels : list Z) : list Z :=
  fold_left
    (fun labels ia =>
       match tile !! ia.1 with
       | Some s => <[s := Z.of_nat ia.2]> labels
       | None => labels
       end)
    (zip (seq 0 (length assigned)) assigned) baseLabels.

(** The labels that the solver leaves for a tile. *)
Definition solve_tile (inputToIndices : list (nat * nat)) (sub : nat)
    (tile : list nat) : list nat :=
  let un := tile_unary tile in
  alphaExpansionGraphcut (tile_edges knnSearch inputToIndices sub tile)
    (probabilityMatrix un.*1) un.*2.

(** Lines 287-349, one tile. *)
Definition run_tile (inputToIndices : list (nat * nat))
    (baseLabels : list Z) (st : nat * list nat) : list Z :=
  match st.2 with
  | [] => baseLabels
  | _ :: _ => write_tile st.2 (solve_tile inputToIndices st.1 st.2) baseLabels
  end.

(** Lines 133 and 224-352: the resize of [base->labels], the assignment of
    the points to the tiles, and the loop over the tiles. *)
Definition classify_graphcut (bboxes : list Bbox3) (points : list Point)
    (baseLabels : list Z) : list Z :=
  let st := assign_points contains bboxes points in
  fold_left (run_tile st.2)
    (zip (seq 0 (length st.1)) st.1)
    (resize (length points) 0%Z baseLabels).

End Run.

(** [T = float]: the conversion of line 333 changes nothing. *)
Definition demo_to_float (v : Q) : Q := v.

(** A solver that changes nothing, for examples. *)
Definition demo_solver (edges : list ((nat * nat) * Q))
    (matrix : list (list xfloat)) (assigned : list nat) : list nat :=
  assigned.

(** Features and evaluator for the five sample points: one feature, the
    index of the point; class 1 for the points 0 and 2, class 0 else. *)
Definition demo_features : list (nat -> Q) :=
  [fun i => inject_Z (Z.of_nat i)].
Definition demo_evaluate (ft : list Q) : list Q :=
  match ft with
  | [x] => if Qeq_bool x 0 || Qeq_bool x 2
           then [(1 # 4); (3 # 4)]%Q else [(3 # 4); (1 # 4)]%Q
  | _ => [1; 0]%Q
  end.

End GraphCutRun.

(** ** The Local-Smooth path ([classifyData], lines 165-223) *)

Module Smooth.
Import Inference.

(** [mean[j] /= numMatches]: the division of the accumulated sum by the
    number of matches, which is 0/0 = NaN when there is no match. *)
Definition fdiv (m : Q) (numMatches : nat) : xfloat :=
  if numMatches =? 0 then
    if Qeq_bool m 0 then NaN else if Qltb 0 m then PInf else NInf
  else Fin (m / inject_Z (Z.of_nat numMatches)).

(** Lines 209-217: the division and the search for the highest mean. *)
Fixpoint smooth_loop (mean : list Q) (numMatches : nat) (j bestClass : nat)
    (bestClassVal : xfloat) : nat :=
  match mean with
  | [] => bestClass
  | m :: rest =>
      let mj := fdiv m numMatches in
      if xltb bestClassVal mj
      then smooth_loop rest numMatches (S j) j mj
      else smooth_loop rest numMatches (S j) bestClass bestClassVal
  end.

Section LocalSmooth.
Variable features : list (nat -> Q).
Variable evaluateFunc : list Q -> list Q.
(** [labels.size()]. *)
Variable numLabels : nat.
(** [radiusSearch i]: the indices [radiusMatches[n].first] of the
    [numMatches] matches that [index->radiusSearch] returns for base point
    [i] and the radius [regRadius], in order. *)
Variable radiusSearch : nat -> list nat.

(** Lines 175-185, one point: [values[j][i] = probs[j]] for every class. *)
Definition store_probs (values : list (list Q)) (i : nat) : list (list Q) :=
  let probs := evaluateFunc (gather features i) in
  imap (fun j row => <[i := default 0%Q (probs !! j)]> row) values.

(** Lines 166-187: the matrix [values], one row per class, filled with -1
    and then with the probabilities of every base point. *)
Definition all_values (baseCount : nat) : list (list Q) :=
  fold_left store_probs (seq 0 baseCount)
    (replicate numLabels (replicate baseCount (-1)%Q)).

(** Lines 200-207: [mean], the per-class sums over the matches (the sums
    are exact: the rounding in [T] is not modelled). *)
Definition mean_sums (values : list (list Q)) (i : nat) : list Q :=
  map (fun row =>
         fold_left (fun m n => (m + default 0 (row !! n))%Q)
           (radiusSearch i) 0%Q)
    values.

(** Lines 199-220, one point. *)
Definition smooth_point (values : list (list Q)) (baseLabels : list Z)
    (i : nat) : list Z :=
  <[i := Z.of_nat (smooth_loop (mean_sums values i)
                     (length (radiusSearch i)) 0 0 (Fin 0))]> baseLabels.

(** Lines 133 and 165-223. *)
Definition classify_smooth (baseCount : nat) (baseLabels : list Z) : list Z :=
  fold_left (smooth_point (all_values baseCount)) (seq 0 baseCount)
    (resize baseCount 0%Z baseLabels).

(** The sum, over the matches of point [i], of the probability that the
    evaluator gives to class [j]. *)
Definition neighbour_sum (i j : nat) : Q :=
  fold_left
    (fun m n => (m + default 0 (evaluateFunc (gather features n) !! j))%Q)
    (radiusSearch i) 0%Q.

Definition neighbour_sums (i : nat) : list Q :=
  map (neighbour_sum i) (seq 0 numLabels).

End LocalSmooth.

(** Sample data: the matches of a point are the point and its right
    neighbour, except for point 3, which has no match at all. *)
Definition demo_radius (i : nat) : list nat :=
  match i with
  | 3 => []
  | _ => [i; S i]
  end.

End Smooth.

(** ** The Gini split: sums of squares and class counts *)

Module GiniSpec.
Import Gini.

(** The sum of the squares, without wrap-around. *)
Definition sum_squares (frequencies : list Z) : Z :=
  foldr (fun f acc => (f * f + acc)%Z) 0%Z frequencies.

Definition sumZ (l : list Z) : Z := foldr Z.add 0%Z l.

(** The class counts of a list of samples, counted as lines 45-48 and
    54 count them. *)
Definition histogram (n_classes : nat) (samples : list (Q * Z)) : list Z :=
  fold_left (fun v p => alter_at (fun c => u64 (c + 1)) p.2 v)
    samples (replicate n_classes 0%Z).

(** How many of the samples have class [c]. *)
Definition samples_of_class (c : nat) (samples : list (Q * Z)) : Z :=
  Z.of_nat (length (filter (fun p => p.2 = Z.of_nat c) samples)).

(** Every class is an index of [classes_l] and [classes_r]. *)
Definition classes_in_bounds (n_classes : nat) (samples : list (Q * Z))
  : Prop :=
  Forall (fun p => (0 <= p.2 < Z.of_nat n_classes)%Z) samples.

End GiniSpec.

(** * Properties *)

(** ** Facts about the number model *)

Lemma Qltb_lt a b : Qltb a b = true <-> (a < b)%Q.
Proof.
  unfold Qltb. rewrite negb_true_iff.
  destruct (Qle_bool b a) eqn:E.
  - apply Qle_bool_iff in E. split; [discriminate | intros H; lra].
  - split; [intros _ | reflexivity].
    apply Qnot_le_lt. intros H. apply Qle_bool_iff in H. congruence.
Qed.

Lemma Qltb_ge a b : Qltb a b = false <-> (b <= a)%Q.
Proof. unfold Qltb. rewrite negb_false_iff. apply Qle_bool_iff. Qed.

(** ** Inference without regularization *)

Section InferenceFacts.
Import Inference.

Lemma lookup_snoc_inv {A} (pre : list A) (x y : A) k :
  (pre ++ [x]) !! k = Some y ->
  pre !! k = Some y \/ (k = length pre /\ y = x).
Proof.
  intros H. destruct (decide (k < length pre)) as [Hk|Hk].
  - left. by rewrite lookup_app_l in H.
  - right. rewrite lookup_app_r in H by lia.
    destruct (k - length pre) as [|n] eqn:E; simpl in H; [|done].
    split; [lia | congruence].
Qed.

Lemma best_loop_inv rest : forall pre b v,
  best_inv pre b v ->
  best_inv (pre ++ rest) (best_loop rest (length pre) b v).1
                         (best_loop rest (length pre) b v).2.
Proof.
  induction rest as [|p rest IH]; intros pre b v Hinv; simpl.
  - by rewrite app_nil_r.
  - replace (pre ++ p :: rest) with ((pre ++ [p]) ++ rest)
      by (by rewrite <- app_assoc).
    replace (S (length pre)) with (length (pre ++ [p]))
      by (rewrite length_app; simpl; lia).
    assert (Hv : (0 <= v)%Q /\ forall k q, pre !! k = Some q -> (q <= v)%Q).
    { destruct Hinv as [(_ & -> & H)|(_ & H0 & H & _)]; split; auto; lra. }
    destruct Hv as [Hv0 Hle].
    destruct (Qltb v p) eqn:E; apply IH.
    + apply Qltb_lt in E. right. repeat split.
      * rewrite lookup_app_r by lia. by rewrite Nat.sub_diag.
      * lra.
      * intros k q Hk. apply lookup_snoc_inv in Hk as [Hk|[_ ->]]; [|lra].
        apply Hle in Hk. lra.
      * intros k q Hlt Hk. rewrite lookup_app_l in Hk by done.
        apply Hle in Hk. lra.
    + apply Qltb_ge in E.
      destruct Hinv as [(-> & -> & H)|(Hb & H0 & H & Hfirst)].
      * left. repeat split; [].
        intros k q Hk. apply lookup_snoc_inv in Hk as [Hk|[_ ->]]; eauto.
      * right. repeat split; auto.
        -- apply lookup_app_l_Some. done.
        -- intros k q Hk. apply lookup_snoc_inv in Hk as [Hk|[_ ->]]; eauto.
        -- intros k q Hlt Hk.
           rewrite lookup_app_l in Hk by (apply lookup_lt_Some in Hb; lia).
           eauto.
Qed.

(** On a non-empty vector of non-negative values the search returns the
    first position of the maximum. *)
Lemma findBest_first_argmax (probs : list Q) :
  probs <> [] ->
  (forall j p, probs !! j = Some p -> (0 <= p)%Q) ->
  first_argmax probs (findBest probs).
Proof.
  intros Hne Hpos. unfold findBest.
  pose proof (best_loop_inv probs [] 0 0%Q) as H. simpl in H.
  destruct H as [(Hb & Hv & H)|(Hb & H0 & H & Hfirst)].
  - left. repeat split; []. intros k p Hk. by destruct k.
  - rewrite Hb. destruct probs as [|p0 probs]; [done|].
    exists p0. repeat split; [| intros; lia].
    intros j p Hj. specialize (H _ _ Hj). specialize (Hpos 0 p0 eq_refl). lra.
  - eexists. eauto.
Qed.

Lemma classify_none_length features evaluateFunc idxs : forall l,
  length (fold_left (classify_point features evaluateFunc) idxs l) = length l.
Proof.
  induction idxs as [|i idxs IH]; intros l; simpl; [done|].
  rewrite IH. unfold classify_point. by rewrite length_insert.
Qed.

Lemma classify_none_lookup features evaluateFunc n : forall l i,
  n <= length l -> i < n ->
  fold_left (classify_point features evaluateFunc) (seq 0 n) l !! i
  = Some (Z.of_nat (findBest (evaluateFunc (gather features i)))).
Proof.
  induction n as [|n IH]; intros l i Hn Hi; [lia|].
  rewrite seq_S, fold_left_app. simpl. unfold classify_point at 1.
  destruct (decide (i = n)) as [->|Hne].
  - apply list_lookup_insert_eq. rewrite classify_none_length. lia.
  - rewrite list_lookup_insert_ne by done. apply IH; lia.
Qed.

(** C7. With [regularization = None] the label stored for base point [i] is
    the argmax of the probability vector that [evaluateFunc] returns on the
    feature vector of [i]: no entry of the vector is larger, and every entry
    at a smaller class index is strictly smaller (ties go to the smallest
    index). The vector is a probability vector: non-empty, entries [>= 0]. *)
Theorem C7_none_label_is_first_argmax
    features evaluateFunc baseCount baseLabels i :
  i < baseCount ->
  evaluateFunc (gather features i) <> [] ->
  (forall j p, evaluateFunc (gather features i) !! j = Some p -> (0 <= p)%Q) ->
  exists b,
    classify_none features evaluateFunc baseCount baseLabels !! i
      = Some (Z.of_nat b)
    /\ b = findBest (evaluateFunc (gather features i))
    /\ first_argmax (evaluateFunc (gather features i)) b.
Proof.
  intros Hi Hne Hpos. eexists. split; [|split; [reflexivity|]].
  - unfold classify_none. apply classify_none_lookup; [|done].
    by rewrite length_resize.
  - by apply findBest_first_argmax.
Qed.

Lemma C7_none_label_is_first_argmax_witness :
  exists b,
    classify_none demo_features demo_evaluate 2 [] !! 1 = Some (Z.of_nat b)
    /\ b = findBest (demo_evaluate (gather demo_features 1))
    /\ first_argmax (demo_evaluate (gather demo_features 1)) b.
Proof.
  apply (C7_none_label_is_first_argmax demo_features demo_evaluate 2 [] 1).
  - lia.
  - discriminate.
  - intros j p. vm_compute.
    destruct j as [|[|[|j]]]; intros [= <-]; discriminate.
Defined.

End InferenceFacts.

(** ** The label writer *)

Section WriterFacts.
Import Writer.

Lemma build_skipMap_from skip : forall (m : list bool) (n : nat),
  length m = 255 ->
  m !! n = Some true \/ (Z.of_nat n ∈ skip /\ n < 255) ->
  fold_left skip_step skip m !! n = Some true.
Proof.
  induction skip as [|c skip IH]; intros m n Hlen H; simpl.
  - destruct H as [H|[H _]]; [done | by apply elem_of_nil in H].
  - assert (Hlen' : length (skip_step m c) = 255).
    { unfold skip_step. case_match; [by rewrite length_insert | done]. }
    apply IH; [done|].
    destruct H as [H|[H Hn]].
    + left. unfold skip_step. case_match; [|done].
      destruct (decide (Z.to_nat c = n)) as [<-|Hne].
      * apply list_lookup_insert_eq. by apply lookup_lt_Some in H.
      * by rewrite list_lookup_insert_ne.
    + apply elem_of_cons in H as [<-|H]; [left | by right].
      unfold skip_step.
      replace ((0 <=? Z.of_nat n)%Z && (Z.of_nat n <=? 255)%Z) with true
        by (symmetry; apply andb_true_iff; split; apply Z.leb_le; lia).
      rewrite Nat2Z.id. apply list_lookup_insert_eq. lia.
Qed.

(** A code of the skip list in 0..254 is marked in the skip map. *)
Lemma build_skipMap_marks skip (c : Z) :
  c ∈ skip -> (0 <= c < 255)%Z ->
  at_int (build_skipMap skip) c = Some true.
Proof.
  intros Hin Hc. unfold at_int, build_skipMap.
  replace (0 <=? c)%Z with true by (symmetry; apply Z.leb_le; lia).
  apply build_skipMap_from; [by rewrite length_replicate|].
  right. rewrite Z2Nat.id by lia. split; [done | lia].
Qed.

Variable LABEL_UNCLASSIFIED : Z.
Variable train2asprsCodes : Z -> Z.
Variable labelSet : list Label.
Variables useColors unclassifiedOnly : bool.
Variable skipMap : list bool.

Local Abbreviation write_point' :=
  (write_point LABEL_UNCLASSIFIED train2asprsCodes labelSet
     useColors unclassifiedOnly skipMap).
Local Abbreviation update_flag' :=
  (update_flag LABEL_UNCLASSIFIED labelSet unclassifiedOnly skipMap).
Local Abbreviation label_after' :=
  (label_after LABEL_UNCLASSIFIED train2asprsCodes labelSet
     useColors unclassifiedOnly skipMap).
Local Abbreviation color_after' :=
  (color_after LABEL_UNCLASSIFIED labelSet useColors unclassifiedOnly skipMap).

Lemma label_after_view ps ps' i cur :
  same_view ps ps' i -> label_after' ps i cur = label_after' ps' i cur.
Proof.
  intros (Hpm & Hbl & Hhas & Hcur).
  unfold label_after, update_flag, best_label.
  by rewrite Hpm, Hbl, Hhas, Hcur.
Qed.

Lemma color_after_view ps ps' i c :
  same_view ps ps' i -> color_after' ps i c = color_after' ps' i c.
Proof.
  intros (Hpm & Hbl & Hhas & Hcur).
  unfold color_after, update_flag, best_label.
  by rewrite Hpm, Hbl, Hhas, Hcur.
Qed.

Lemma write_point_colors ps i j :
  colors (write_point' ps i) !! j
  = if decide (j = i) then color_after' ps i <$> colors ps !! i
    else colors ps !! j.
Proof.
  unfold write_point, color_after.
  destruct (update_flag' ps i) eqn:Hu; [destruct useColors eqn:Hc|];
    [ | |destruct (hasLabels ps) eqn:Hh]; simpl.
  - case_decide; subst; [|by rewrite list_lookup_insert_ne].
    destruct (colors ps !! i) eqn:E; simpl.
    + apply list_lookup_insert_eq. by apply lookup_lt_Some in E.
    + apply lookup_ge_None. rewrite length_insert. by apply lookup_ge_None.
  - case_decide; subst; [by destruct (colors ps !! i) | done].
  - case_decide; subst; [by destruct (colors ps !! i) | done].
  - case_decide; subst; [by destruct (colors ps !! i) | done].
Qed.

Lemma hasLabels_length ps ps' :
  length (labels ps) = length (labels ps') -> hasLabels ps = hasLabels ps'.
Proof.
  unfold hasLabels. by destruct (labels ps), (labels ps').
Qed.

Lemma write_point_frame ps i :
  count (write_point' ps i) = count ps
  /\ pointMap (write_point' ps i) = pointMap ps
  /\ base_labels (write_point' ps i) = base_labels ps
  /\ length (labels (write_point' ps i)) = length (labels ps).
Proof.
  unfold write_point.
  repeat case_match; simpl; rewrite ?length_insert; done.
Qed.

Lemma write_point_labels ps i j :
  labels (write_point' ps i) !! j
  = if decide (j = i) then label_after' ps i <$> labels ps !! i
    else labels ps !! j.
Proof.
  unfold write_point, label_after.
  destruct (update_flag' ps i) eqn:Hu; [destruct useColors eqn:Hc|];
    [ | |destruct (hasLabels ps) eqn:Hh]; simpl.
  - case_decide; subst; [by destruct (labels ps !! i) | done].
  - case_decide; subst; [|by rewrite list_lookup_insert_ne].
    destruct (labels ps !! i) eqn:E; simpl.
    + apply list_lookup_insert_eq. by apply lookup_lt_Some in E.
    + apply lookup_ge_None. rewrite length_insert. by apply lookup_ge_None.
  - case_decide; subst; [|by rewrite list_lookup_insert_ne].
    destruct (labels ps !! i) eqn:E; simpl.
    + apply list_lookup_insert_eq. by apply lookup_lt_Some in E.
    + apply lookup_ge_None. rewrite length_insert. by apply lookup_ge_None.
  - case_decide; subst; [by destruct (labels ps !! i) | done].
Qed.

(** The sweep over the first [n] surface points: every iteration sees the
    point set as it was on entry, as far as its own decisions go. *)
Lemma write_sweep n : forall ps,
  let ps' := fold_left write_point' (seq 0 n) ps in
  count ps' = count ps
  /\ pointMap ps' = pointMap ps
  /\ base_labels ps' = base_labels ps
  /\ length (labels ps') = length (labels ps)
  /\ (forall j,
       labels ps' !! j
       = if decide (j < n) then label_after' ps j <$> labels ps !! j
         else labels ps !! j)
  /\ (forall j,
       colors ps' !! j
       = if decide (j < n) then color_after' ps j <$> colors ps !! j
         else colors ps !! j).
Proof.
  induction n as [|n IH]; intros ps; cbv zeta.
  - split_and!; [done..| |]; intros j; rewrite decide_False by lia; done.
  - rewrite seq_S, fold_left_app. cbn [fold_left Nat.add].
    destruct (IH ps) as (Hc & Hpm & Hbl & Hlen & Hlab & Hcol).
    set (mid := fold_left write_point' (seq 0 n) ps) in *.
    destruct (write_point_frame mid n) as (Hc' & Hpm' & Hbl' & Hlen').
    assert (Hview : same_view mid ps n).
    { split_and!; auto using hasLabels_length.
      rewrite Hlab. case_decide; [lia|done]. }
    split_and!; [congruence..| |]; intros j.
    + rewrite write_point_labels.
      case_decide as Hj; subst.
      * rewrite (Hlab n). rewrite decide_False by lia.
        rewrite decide_True by lia.
        destruct (labels ps !! n); simpl; [|done].
        by rewrite (label_after_view _ _ _ _ Hview).
      * rewrite Hlab. repeat case_decide; done || lia.
    + rewrite write_point_colors.
      case_decide as Hj; subst.
      * rewrite (Hcol n). rewrite decide_False by lia.
        rewrite decide_True by lia.
        destruct (colors ps !! n); simpl; [|done].
        by rewrite (color_after_view _ _ _ _ Hview).
      * rewrite Hcol. repeat case_decide; done || lia.
Qed.

Lemma update_flag_skipped ps i idx bestClass label :
  pointMap ps !! i = Some idx ->
  base_labels ps !! idx = Some bestClass ->
  at_int labelSet bestClass = Some label ->
  at_int skipMap (getAsprsCode label) = Some true ->
  update_flag' ps i = false.
Proof.
  intros Hpm Hbl Hl Hskip. unfold update_flag, best_label.
  rewrite Hpm. simpl. rewrite Hbl. simpl. rewrite Hl. simpl.
  rewrite Hskip. simpl. by repeat case_match.
Qed.

Lemma update_flag_classified ps i cur :
  unclassifiedOnly = true ->
  labels ps !! i = Some cur -> cur <> LABEL_UNCLASSIFIED ->
  update_flag' ps i = false.
Proof.
  intros -> Hcur Hne. unfold update_flag.
  assert (hasLabels ps = true) as ->.
  { unfold hasLabels. by destruct (labels ps). }
  rewrite Hcur. simpl.
  replace (cur =? LABEL_UNCLASSIFIED)%Z with false
    by (symmetry; by apply Z.eqb_neq).
  simpl. by repeat case_match.
Qed.

End WriterFacts.

Lemma at_int_elem_of {A} (l : list A) (i : Z) (x : A) :
  at_int l i = Some x -> x ∈ l.
Proof.
  unfold at_int. destruct (0 <=? i)%Z; [|done].
  intros Hl. apply list_elem_of_lookup. eauto.
Qed.

Lemma map_fixes_iff {A} (f : A -> A) (l : list A) :
  map f l = l <-> forall x, x ∈ l -> f x = x.
Proof.
  split.
  - intros Heq x Hx. apply list_elem_of_lookup in Hx as [j Hj].
    assert (map f l !! j = Some x) as H by (by rewrite Heq).
    rewrite list_lookup_fmap, Hj in H. simpl in H. congruence.
  - intros Hfix. apply list_eq. intros j. rewrite list_lookup_fmap.
    destruct (l !! j) as [x|] eqn:E; [simpl|done].
    f_equal. apply Hfix. apply list_elem_of_lookup. eauto.
Qed.

Section WriterClaims.
Import Writer.

Lemma skip_step_length m c : length (skip_step m c) = length m.
Proof. unfold skip_step. case_match; [by rewrite length_insert | done]. Qed.

Lemma build_skipMap_from_inv skip : forall (m : list bool) (n : nat),
  fold_left skip_step skip m !! n = Some true ->
  m !! n = Some true \/ Z.of_nat n ∈ skip.
Proof.
  induction skip as [|c skip IH]; intros m n H; simpl in H; [by left|].
  apply IH in H as [H|H]; [|right; by right].
  unfold skip_step in H.
  destruct ((0 <=? c)%Z && (c <=? 255)%Z) eqn:E; [|by left].
  apply andb_true_iff in E as [E1 _]. apply Z.leb_le in E1.
  destruct (decide (Z.to_nat c = n)) as [<-|Hne].
  - right. rewrite Z2Nat.id by done. by left.
  - left. by rewrite list_lookup_insert_ne in H.
Qed.

Lemma skip_fold_length skip : forall m,
  length (fold_left skip_step skip m) = length m.
Proof.
  induction skip as [|c skip IH]; intros m; simpl; [done|].
  by rewrite IH, skip_step_length.
Qed.

(** Within the map, an entry is set exactly for the codes of the list. *)
Lemma build_skipMap_lookup skip (c : Z) :
  (0 <= c < 255)%Z ->
  at_int (build_skipMap skip) c = Some (bool_decide (c ∈ skip)).
Proof.
  intros Hc. case_bool_decide as Hin; [by apply build_skipMap_marks|].
  unfold at_int, build_skipMap.
  replace (0 <=? c)%Z with true by (symmetry; apply Z.leb_le; lia).
  destruct (fold_left skip_step skip (replicate 255 false) !! Z.to_nat c)
    as [[|]|] eqn:E.
  - apply build_skipMap_from_inv in E as [E|E].
    + apply lookup_replicate in E as [? _]. done.
    + rewrite Z2Nat.id in E by lia. done.
  - done.
  - apply lookup_ge_None in E.
    rewrite skip_fold_length, length_replicate in E. lia.
Qed.

Lemma best_label_in labelSet ps i :
  classes_in_range labelSet ps -> i < count ps ->
  best_label labelSet ps i ∈ labelSet.
Proof.
  intros Hwf Hi. destruct (Hwf i Hi) as (idx & bc & l & Hpm & Hbl & Hl).
  unfold best_label. rewrite Hpm. simpl. rewrite Hbl. simpl. rewrite Hl.
  simpl. by eapply at_int_elem_of.
Qed.

(** The flag [update] of lines 379-387 when every access to the skip map
    is within bounds: the point is held back by [unclassifiedOnly] or by a
    code of the skip list. *)
Lemma update_flag_in_bounds
    LABEL_UNCLASSIFIED labelSet unclassifiedOnly skip ps i :
  skipMap_in_bounds labelSet skip ->
  classes_in_range labelSet ps -> i < count ps ->
  update_flag LABEL_UNCLASSIFIED labelSet unclassifiedOnly
    (build_skipMap skip) ps i
  = negb (unclassifiedOnly && hasLabels ps
          && negb (default 0 (labels ps !! i) =? LABEL_UNCLASSIFIED)%Z)
    && negb (bool_decide (getAsprsCode (best_label labelSet ps i) ∈ skip)).
Proof.
  intros [Hb _] Hwf Hi. unfold update_flag.
  rewrite build_skipMap_lookup by (apply Hb; by apply best_label_in).
  cbn [default].
  destruct (unclassifiedOnly && hasLabels ps
            && negb (default 0 (labels ps !! i) =? LABEL_UNCLASSIFIED)%Z);
    by destruct (bool_decide _).
Qed.

(** C5 (amended). On a surface that carries labels, when the skip set holds
    the ASPRS code of every label of the label set (codes within 0..254, the
    range of the skip map), no point is updated and [classifyData] rewrites
    every [labels[i]] to [train2asprs[labels[i]]]; the array is identical to
    its value on entry exactly when the table fixes every label in it. *)
Theorem C5_skip_all_translates_labels
    LABEL_UNCLASSIFIED train2asprsCodes labelSet useColors unclassifiedOnly
    skip ps :
  labels ps <> [] ->
  length (labels ps) = count ps ->
  classes_in_range labelSet ps ->
  (forall l, l ∈ labelSet ->
     getAsprsCode l ∈ skip /\ (0 <= getAsprsCode l < 255)%Z) ->
  let ps' := write_labels LABEL_UNCLASSIFIED train2asprsCodes labelSet
               useColors unclassifiedOnly skip ps in
  labels ps' = map train2asprsCodes (labels ps)
  /\ (labels ps' = labels ps <->
      forall cur, cur ∈ labels ps -> train2asprsCodes cur = cur).
Proof.
  intros Hne Hlen Hwf Hskip ps'.
  assert (Hmap : labels ps' = map train2asprsCodes (labels ps)).
  { subst ps'. unfold write_labels.
    assert (hasLabels ps = true) as Hhas.
    { unfold hasLabels. by destruct (labels ps). }
    rewrite Hhas, andb_false_r.
    match goal with |- labels (fold_left ?f _ _) = _ =>
      destruct (write_sweep LABEL_UNCLASSIFIED train2asprsCodes labelSet
                  useColors unclassifiedOnly (build_skipMap skip)
                  (count ps) ps) as (_ & _ & _ & _ & Hlab & _) end.
    apply list_eq. intros j. rewrite Hlab, list_lookup_fmap.
    case_decide as Hj.
    - destruct (labels ps !! j) as [cur|]; [simpl|done].
      destruct (Hwf j Hj) as (idx & bc & l & Hpm & Hbl & Hl).
      destruct (Hskip l (at_int_elem_of _ _ _ Hl)) as [Hin Hrange].
      unfold label_after.
      rewrite (update_flag_skipped _ _ _ _ ps j idx bc l Hpm Hbl Hl
                 (build_skipMap_marks _ _ Hin Hrange)).
      by rewrite Hhas.
    - rewrite (proj2 (lookup_ge_None (labels ps) j)) by lia. done. }
  split; [done|]. rewrite Hmap. apply map_fixes_iff.
Qed.

Lemma C5_skip_all_translates_labels_witness :
  let ps' := write_labels demo_unclassified demo_train2asprs demo_labelSet
               false false [2%Z] demo_ps in
  labels ps' = map demo_train2asprs (labels demo_ps)
  /\ (labels ps' = labels demo_ps <->
      forall cur, cur ∈ labels demo_ps -> demo_train2asprs cur = cur).
Proof.
  apply (C5_skip_all_translates_labels demo_unclassified demo_train2asprs
           demo_labelSet false false [2%Z] demo_ps).
  - discriminate.
  - reflexivity.
  - intros i Hi. exists 0, 0%Z, (mkLabel 2 (mkColor 192 192 192)).
    destruct i as [|[|i]]; [done | done | simpl in Hi; lia].
  - intros l Hl. apply list_elem_of_singleton in Hl as ->. simpl.
    split; [apply list_elem_of_singleton; reflexivity | lia].
Defined.

(** C5 as stated fails: the skip set holds the code of the only label, the
    surface is labelled, and the labels leave [classifyData] changed
    (training code 0 has become ASPRS code 2). *)
Lemma C5_skip_all_changes_labels :
  labels demo_ps <> []
  /\ (forall l, l ∈ demo_labelSet -> getAsprsCode l ∈ [2%Z])
  /\ labels (write_labels demo_unclassified demo_train2asprs demo_labelSet
               false false [2%Z] demo_ps) = [2; 2]%Z
  /\ labels demo_ps = [0; 0]%Z
  /\ labels (write_labels demo_unclassified demo_train2asprs demo_labelSet
               false false [2%Z] demo_ps) <> labels demo_ps.
Proof.
  split_and!; [discriminate | | reflexivity | reflexivity | discriminate].
  intros l Hl. apply list_elem_of_singleton in Hl as ->.
  apply list_elem_of_singleton. reflexivity.
Qed.

(** C6 (amended). With [unclassifiedOnly = true] on a surface whose points
    all carry a label other than [LABEL_UNCLASSIFIED], no point is updated
    and [classifyData] rewrites every [labels[i]] to
    [train2asprs[labels[i]]]; the array is identical to its value on entry
    exactly when the table fixes every label in it. *)
Theorem C6_unclassifiedOnly_translates_labels
    LABEL_UNCLASSIFIED train2asprsCodes labelSet useColors skip ps :
  length (labels ps) = count ps ->
  classes_in_range labelSet ps ->
  (forall cur, cur ∈ labels ps -> cur <> LABEL_UNCLASSIFIED) ->
  let ps' := write_labels LABEL_UNCLASSIFIED train2asprsCodes labelSet
               useColors true skip ps in
  labels ps' = map train2asprsCodes (labels ps)
  /\ (labels ps' = labels ps <->
      forall cur, cur ∈ labels ps -> train2asprsCodes cur = cur).
Proof.
  intros Hlen _ Hcls ps'.
  assert (Hmap : labels ps' = map train2asprsCodes (labels ps)).
  { subst ps'. unfold write_labels.
    assert (Hps1 : (if negb useColors && negb (hasLabels ps)
                    then set_labels ps (resize (count ps) 0%Z (labels ps))
                    else ps) = ps).
    { destruct (labels ps) as [|x l] eqn:E; unfold hasLabels; rewrite E.
      - simpl in Hlen. rewrite <- Hlen. destruct ps; simpl in *; subst.
        by destruct useColors.
      - by rewrite andb_false_r. }
    rewrite Hps1.
    destruct (write_sweep LABEL_UNCLASSIFIED train2asprsCodes labelSet
                useColors true (build_skipMap skip)
                (count ps) ps) as (_ & _ & _ & _ & Hlab & _).
    apply list_eq. intros j. rewrite Hlab, list_lookup_fmap.
    case_decide as Hj.
    - destruct (labels ps !! j) as [cur|] eqn:E; [simpl|done].
      unfold label_after.
      rewrite (update_flag_classified LABEL_UNCLASSIFIED labelSet true
                 (build_skipMap skip) ps j cur eq_refl E).
      + assert (hasLabels ps = true) as ->; [|done].
        unfold hasLabels. by destruct (labels ps).
      + apply Hcls. apply list_elem_of_lookup. eauto.
    - rewrite (proj2 (lookup_ge_None (labels ps) j)) by lia. done. }
  split; [done|]. rewrite Hmap. apply map_fixes_iff.
Qed.

Lemma C6_unclassifiedOnly_translates_labels_witness :
  let ps' := write_labels demo_unclassified demo_train2asprs demo_labelSet
               false true [] demo_ps in
  labels ps' = map demo_train2asprs (labels demo_ps)
  /\ (labels ps' = labels demo_ps <->
      forall cur, cur ∈ labels demo_ps -> demo_train2asprs cur = cur).
Proof.
  apply (C6_unclassifiedOnly_translates_labels demo_unclassified
           demo_train2asprs demo_labelSet false [] demo_ps).
  - reflexivity.
  - intros i Hi. exists 0, 0%Z, (mkLabel 2 (mkColor 192 192 192)).
    destruct i as [|[|i]]; [done | done | simpl in Hi; lia].
  - intros cur Hcur. simpl in Hcur.
    apply elem_of_cons in Hcur as [->|Hcur]; [discriminate|].
    apply list_elem_of_singleton in Hcur as ->. discriminate.
Defined.

(** C6 as stated fails: both points carry label 0, which is not
    [LABEL_UNCLASSIFIED], and [unclassifiedOnly = true] still changes the
    array (0 becomes the ASPRS code 2). *)
Lemma C6_unclassifiedOnly_changes_labels :
  (forall cur, cur ∈ labels demo_ps -> cur <> demo_unclassified)
  /\ labels (write_labels demo_unclassified demo_train2asprs demo_labelSet
               false true [] demo_ps) = [2; 2]%Z
  /\ labels demo_ps = [0; 0]%Z
  /\ labels (write_labels demo_unclassified demo_train2asprs demo_labelSet
               false true [] demo_ps) <> labels demo_ps.
Proof.
  split_and!; [| reflexivity | reflexivity | discriminate].
  intros cur Hcur. simpl in Hcur.
  apply elem_of_cons in Hcur as [->|Hcur]; [discriminate|].
  apply list_elem_of_singleton in Hcur as ->. discriminate.
Qed.

(** C9 (amended). With [useColors = true], ASPRS codes of the labels within
    0..254 and no code 255 in the skip list (the range of the skip map), the
    [labels] array is never resized (a surface without labels stays
    without), and for every surface point [i]: when the point is updated,
    [labels[i]] keeps its value and [colors[i]] receives the colour of the
    inferred label; when it is not updated, [colors[i]] keeps its value and
    [labels[i]] is rewritten to [train2asprs[labels[i]]]. The point is not
    updated exactly when [unclassifiedOnly] holds it back (the surface has
    labels and [labels[i]] is not [LABEL_UNCLASSIFIED]) or the ASPRS code of
    its inferred label is in the skip list. *)
Theorem C9_useColors_labels_and_colors
    LABEL_UNCLASSIFIED train2asprsCodes labelSet unclassifiedOnly skip ps :
  (labels ps = [] \/ length (labels ps) = count ps) ->
  length (colors ps) = count ps ->
  classes_in_range labelSet ps ->
  skipMap_in_bounds labelSet skip ->
  let update :=
    update_flag LABEL_UNCLASSIFIED labelSet unclassifiedOnly
      (build_skipMap skip) ps in
  let ps' := write_labels LABEL_UNCLASSIFIED train2asprsCodes labelSet
               true unclassifiedOnly skip ps in
  length (labels ps') = length (labels ps)
  /\ (forall i cur, i < count ps -> labels ps !! i = Some cur ->
        labels ps' !! i
        = Some (if update i then cur else train2asprsCodes cur))
  /\ (forall i c, i < count ps -> colors ps !! i = Some c ->
        colors ps' !! i
        = Some (if update i
                then getColor (best_label labelSet ps i) else c))
  /\ (forall i, i < count ps ->
        update i
        = negb (unclassifiedOnly && hasLabels ps
                && negb (default 0 (labels ps !! i) =? LABEL_UNCLASSIFIED)%Z)
          && negb (bool_decide
                     (getAsprsCode (best_label labelSet ps i) ∈ skip))).
Proof.
  intros _ _ Hwf Hbounds update ps'. subst ps'. unfold write_labels. simpl.
  destruct (write_sweep LABEL_UNCLASSIFIED train2asprsCodes labelSet
              true unclassifiedOnly (build_skipMap skip)
              (count ps) ps) as (_ & _ & _ & Hlen & Hlab & Hcol).
  split_and!; [done | | |].
  3: { intros i Hi. by apply update_flag_in_bounds. }
  - intros i cur Hi Hcur. rewrite Hlab, decide_True by done.
    rewrite Hcur. simpl. f_equal. unfold label_after. fold (update i).
    destruct (update i); [done|].
    assert (hasLabels ps = true) as ->; [|done].
    unfold hasLabels. by destruct (labels ps).
  - intros i c Hi Hc. rewrite Hcol, decide_True by done.
    rewrite Hc. simpl. f_equal. unfold color_after. fold (update i).
    by rewrite andb_true_r.
Qed.

Lemma C9_useColors_labels_and_colors_witness :
  let update :=
    update_flag demo_unclassified demo_labelSet false (build_skipMap []) demo_ps in
  let ps' := write_labels demo_unclassified demo_train2asprs demo_labelSet
               true false [] demo_ps in
  length (labels ps') = length (labels demo_ps)
  /\ (forall i cur, i < count demo_ps -> labels demo_ps !! i = Some cur ->
        labels ps' !! i
        = Some (if update i then cur else demo_train2asprs cur))
  /\ (forall i c, i < count demo_ps -> colors demo_ps !! i = Some c ->
        colors ps' !! i
        = Some (if update i
                then getColor (best_label demo_labelSet demo_ps i) else c))
  /\ (forall i, i < count demo_ps ->
        update i
        = negb (false && hasLabels demo_ps
                && negb (default 0 (labels demo_ps !! i)
                         =? demo_unclassified)%Z)
          && negb (bool_decide
                     (getAsprsCode (best_label demo_labelSet demo_ps i)
                      ∈ ([] : list Z)))).
Proof.
  apply (C9_useColors_labels_and_colors demo_unclassified demo_train2asprs
           demo_labelSet false [] demo_ps).
  - right. reflexivity.
  - reflexivity.
  - intros i Hi. exists 0, 0%Z, (mkLabel 2 (mkColor 192 192 192)).
    destruct i as [|[|i]]; [done | done | simpl in Hi; lia].
  - split; [|apply not_elem_of_nil].
    intros l Hl. apply list_elem_of_singleton in Hl as ->. simpl. lia.
Defined.

(** C9 as stated fails: in colour mode, on a surface that had labels, a
    point held back by the skip set has its label rewritten (0 becomes 2)
    and its colour left alone. *)
Lemma C9_useColors_changes_labels :
  labels demo_ps = [0; 0]%Z
  /\ labels (write_labels demo_unclassified demo_train2asprs demo_labelSet
               true false [2%Z] demo_ps) = [2; 2]%Z
  /\ colors (write_labels demo_unclassified demo_train2asprs demo_labelSet
               true false [2%Z] demo_ps) = colors demo_ps
  /\ labels (write_labels demo_unclassified demo_train2asprs demo_labelSet
               true false [2%Z] demo_ps) !! 0 <> labels demo_ps !! 0.
Proof. split_and!; [reflexivity | reflexivity | reflexivity | discriminate]. Qed.

End WriterClaims.

(** ** The Graph-Cut path *)

Section GraphCutFacts.
Import GraphCut.

Section CodeEdges.
Context {Point Bbox3 : Type}.
Variable contains : Bbox3 -> Point -> bool.
Variable knnSearch : nat -> list nat.
Variable bboxes : list Bbox3.





End CodeEdges.

(** C1, at a failing input. Points 0 and 2 share tile 1 and are
    neighbours of each other; the specification asks for the edges (0,1)
    and (1,0) in tile 1 and for no edge in the tiles 0, 2 and 5, which hold
    one point each. The code tests the neighbour's base index against the
    tile number and its tile number against [j]: in tile 1 it emits (0,2)
    and (1,2), both for the neighbour 1 of tile 2; in tile 0 it emits (0,1)
    for the neighbour 0 of tile 1, and in tile 2 it emits (0,1) for the
    neighbour 2 of tile 1. *)
Theorem C1_edges_at_failing_input :
  assign_points demo_contains demo_bboxes demo_points
    = ([[3]; [0; 2]; [1]; []; []; [4]],
       [(0, 1); (1, 2); (2, 1); (3, 0); (4, 5)])
  /\ graph_edges demo_contains demo_knn demo_bboxes demo_points
    = [[((0, 1), strength)];
       [((0, 2), strength); ((1, 2), strength)];
       [((0, 1), strength)]; []; []; []]
  /\ spec_graph_edges demo_contains demo_knn demo_bboxes demo_points
    = [[]; [((0, 1), strength); ((1, 0), strength)]; []; []; []; []].
Proof. split_and!; reflexivity. Qed.

Lemma unary_loop_costs ln values : forall k b v,
  (unary_loop ln values k b v).1 = map (fun value => xneg (flog ln value)) values.
Proof.
  induction values as [|value rest IH]; intros k b v; simpl; [done|].
  f_equal. by destruct (Qltb v value).
Qed.

Lemma unary_loop_label ln values : forall k b v,
  (unary_loop ln values k b v).2 = (Inference.best_loop values k b v).1.
Proof.
  induction values as [|value rest IH]; intros k b v; simpl; [done|].
  by destruct (Qltb v value).
Qed.

Lemma flog_zero ln value : (value == 0)%Q -> xneg (flog ln value) = PInf.
Proof.
  intros H. unfold flog. by rewrite (proj2 (Qeq_bool_iff value 0) H).
Qed.

(** C8 (amended). In the Graph-Cut path a class whose evaluated probability
    is exactly 0 gets the unary cost [-log 0 = +inf]: no epsilon is
    substituted. The initial label is not affected by such a class: it is a
    class of positive probability whenever there is one (a probability of 0
    never passes the strict comparison), and it stays at class 0 when no
    class has a positive probability. *)
Theorem C8_zero_probability_unary_is_infinite ln values k value :
  values !! k = Some value -> (value == 0)%Q ->
  (point_unary ln values).1 !! k = Some PInf
  /\ ((exists pb, values !! (point_unary ln values).2 = Some pb /\ (0 < pb)%Q)
      \/ ((point_unary ln values).2 = 0
          /\ forall j p, values !! j = Some p -> (p <= 0)%Q)).
Proof.
  intros Hk H0. unfold point_unary. split.
  - rewrite unary_loop_costs, list_lookup_fmap, Hk. simpl.
    by rewrite flog_zero.
  - rewrite unary_loop_label.
    destruct (best_loop_inv values [] 0 0%Q) as [(Hb & _ & H)|(Hb & Hpos & _)].
    + left. split_and!; [done..|]. intros j p Hj. by destruct j.
    + right. split; [done|]. exact H.
    + left. eauto.
Qed.

Lemma C8_zero_probability_unary_is_infinite_witness :
  (point_unary demo_ln [0; 1]%Q).1 !! 0 = Some PInf
  /\ ((exists pb, [0; 1]%Q !! (point_unary demo_ln [0; 1]%Q).2 = Some pb
                  /\ (0 < pb)%Q)
      \/ ((point_unary demo_ln [0; 1]%Q).2 = 0
          /\ forall j p, [0; 1]%Q !! j = Some p -> (p <= 0)%Q)).
Proof.
  apply (C8_zero_probability_unary_is_infinite demo_ln [0; 1]%Q 0 0%Q).
  - reflexivity.
  - reflexivity.
Defined.

(** C8 as stated fails: class 0 has probability exactly 0 and its unary
    cost is [+inf], whatever the library logarithm returns elsewhere. *)
Lemma C8_zero_probability_cost_not_finite :
  [0; 1]%Q !! 0 = Some 0%Q
  /\ forall ln, (point_unary ln [0; 1]%Q).1 !! 0 = Some PInf.
Proof. split; [reflexivity | intros ln; reflexivity]. Qed.

End GraphCutFacts.

(** ** The training sampler *)

Section TrainingFacts.
Import Training.

Lemma at_int_incr_at (v : list Z) (g c : Z) :
  at_int (incr_at g v) c
  = if decide (c = g) then Z.succ <$> at_int v c else at_int v c.
Proof.
  unfold at_int, incr_at, alter_at.
  destruct (0 <=? g)%Z eqn:Hg, (0 <=? c)%Z eqn:Hc;
    try apply Z.leb_le in Hg; try apply Z.leb_le in Hc;
    try apply Z.leb_gt in Hg; try apply Z.leb_gt in Hc;
    case_decide; subst; try done; try lia.
  - apply list_lookup_alter_eq.
  - apply list_lookup_alter_ne. lia.
Qed.

Lemma at_int_replicate (n : nat) (c : Z) :
  (0 <= c < Z.of_nat n)%Z -> at_int (replicate n 0%Z) c = Some 0%Z.
Proof.
  intros Hc. unfold at_int.
  replace (0 <=? c)%Z with true by (symmetry; apply Z.leb_le; lia).
  apply lookup_replicate_2. lia.
Qed.

Lemma of_class_snoc (c : Z) (l : list (nat * Z)) (p : nat * Z) :
  of_class c (l ++ [p])
  = (of_class c l + if decide (p.2 = c) then 1 else 0)%Z.
Proof.
  unfold of_class. rewrite filter_app, length_app, filter_cons, filter_nil.
  case_decide; simpl; lia.
Qed.

Lemma of_class_nonneg c l : (0 <= of_class c l)%Z.
Proof. unfold of_class. lia. Qed.

Lemma of_class_perm c l l' : l ≡ₚ l' -> of_class c l = of_class c l'.
Proof. intros H. unfold of_class. by rewrite H. Qed.

(** *** The candidate loop: [count[c]] is the number of candidates of class [c] *)

Section Collect.
Variable LABEL_UNASSIGNED : Z.
Variable numLabels : nat.
Variable asprsToTrain : Z -> Z.
Variable asprsClasses : list Z.
Variable ps : PointSet.

Local Abbreviation collect_point' :=
  (collect_point LABEL_UNASSIGNED asprsToTrain asprsClasses ps).

Lemma collect_point_counted st i :
  counted numLabels st -> counted numLabels (collect_point' st i).
Proof.
  intros Hinv. unfold collect_point.
  repeat case_match; try done.
  intros c Hc. simpl. rewrite at_int_incr_at, of_class_snoc, (Hinv c Hc).
  simpl. repeat case_decide; simpl; try done; try congruence.
  by rewrite Z.add_0_r.
Qed.

Lemma collect_counted :
  counted numLabels (collect LABEL_UNASSIGNED numLabels asprsToTrain asprsClasses ps).
Proof.
  unfold collect.
  generalize (seq 0 (count ps)). intros l.
  assert (H0 : counted numLabels (mkCandidates (replicate numLabels 0%Z)
                          (replicate (count ps) false) [])).
  { intros c Hc. simpl. by apply at_int_replicate. }
  revert H0. generalize (mkCandidates (replicate numLabels 0%Z)
                           (replicate (count ps) false) []).
  induction l as [|i l IH]; intros st Hst; simpl; [done|].
  apply IH. by apply collect_point_counted.
Qed.

End Collect.

(** *** The quota [samplesPerLabel] *)

Lemma foldr_min_init (l : list Z) (c a : Z) :
  foldr Z.min (Z.min c a) l = Z.min c (foldr Z.min a l).
Proof. induction l as [|x l IH]; simpl; [done|]. rewrite IH. lia. Qed.

Lemma samplesPerLabel_loop (count : list Z) : forall a,
  fold_left (fun spl c => if (0 <? c)%Z then Z.min c spl else spl) count a
  = foldr Z.min a (filter (fun c => (0 < c)%Z) count).
Proof.
  induction count as [|c count IH]; intros a; simpl; [done|].
  rewrite IH, filter_cons.
  destruct (0 <? c)%Z eqn:E.
  - apply Z.ltb_lt in E. rewrite decide_True by done. simpl.
    apply foldr_min_init.
  - apply Z.ltb_ge in E. rewrite decide_False by lia. done.
Qed.

Lemma samplesPerLabel_eq count maxSamples :
  samplesPerLabel count maxSamples
  = Z.min (min_nonempty count) (size_t_of_int maxSamples).
Proof. unfold samplesPerLabel, min_nonempty. by rewrite samplesPerLabel_loop. Qed.

Lemma min_nonempty_le (count : list Z) (c x : Z) :
  at_int count c = Some x -> (0 < x)%Z -> (min_nonempty count <= x)%Z.
Proof.
  intros Hc Hx. apply at_int_elem_of in Hc.
  unfold min_nonempty. induction count as [|y count IH]; [by apply elem_of_nil in Hc|].
  rewrite filter_cons. apply elem_of_cons in Hc as [->|Hc].
  - rewrite decide_True by done. simpl. lia.
  - specialize (IH Hc). case_decide; simpl; lia.
Qed.

Lemma min_nonempty_pos (count : list Z) : (0 < min_nonempty count)%Z.
Proof.
  unfold min_nonempty. induction count as [|y count IH]; simpl.
  - unfold SIZE_MAX. lia.
  - rewrite filter_cons. case_decide; simpl; lia.
Qed.

Lemma samplesPerLabel_nonneg count maxSamples :
  (0 <= samplesPerLabel count maxSamples)%Z.
Proof.
  rewrite samplesPerLabel_eq. pose proof (min_nonempty_pos count).
  unfold size_t_of_int.
  pose proof (Z.mod_pos_bound maxSamples (2 ^ 64) ltac:(lia)). lia.
Qed.

(** *** The emission loop: every class receives [min(candidates, quota)] *)

Section Emit.
Variable numLabels : nat.
Variable spl : Z.
Hypothesis spl_nonneg : (0 <= spl)%Z.

Lemma emit_step_emitted pre st p :
  emitted numLabels spl pre st -> emitted numLabels spl (pre ++ [p]) (emit_step spl st p).
Proof.
  intros Hinv c Hc. destruct (Hinv c Hc) as [Hadd Hmin].
  unfold emit_step. rewrite (of_class_snoc c pre).
  destruct (decide (p.2 = c)) as [Hp|Hp].
  - rewrite Hp, Hadd. simpl.
    destruct (of_class c st.2 <? spl)%Z eqn:E; simpl.
    + apply Z.ltb_lt in E.
      rewrite at_int_incr_at, decide_True, Hadd, of_class_snoc by done.
      rewrite decide_True by done. simpl. split; [f_equal; lia | lia].
    + apply Z.ltb_ge in E. split; [done | lia].
  - case_match; simpl.
    + rewrite at_int_incr_at, decide_False, of_class_snoc by done.
      rewrite decide_False by done. split; [by rewrite Z.add_0_r | lia].
    + split; [done | lia].
Qed.

Lemma emit_loop_emitted rest : forall pre st,
  emitted numLabels spl pre st ->
  emitted numLabels spl (pre ++ rest) (fold_left (emit_step spl) rest st).
Proof.
  induction rest as [|p rest IH]; intros pre st Hinv; simpl.
  - by rewrite app_nil_r.
  - replace (pre ++ p :: rest) with ((pre ++ [p]) ++ rest)
      by (by rewrite <- app_assoc).
    apply IH. by apply emit_step_emitted.
Qed.

Lemma emit_of_class shuffled c :
  (0 <= c < Z.of_nat numLabels)%Z ->
  of_class c (emit numLabels spl shuffled) = Z.min (of_class c shuffled) spl.
Proof.
  intros Hc. unfold emit.
  assert (H0 : emitted numLabels spl [] (replicate numLabels 0%Z, [])).
  { intros c' Hc'. simpl. split; [by apply at_int_replicate|].
    unfold of_class. simpl. lia. }
  destruct (emit_loop_emitted shuffled [] _ H0 c Hc) as [_ H]. exact H.
Qed.

End Emit.

(** Every candidate carries a training code below the number of labels. *)
Lemma collect_classes LABEL_UNASSIGNED numLabels asprsToTrain asprsClasses ps :
  sampler_input_ok LABEL_UNASSIGNED numLabels ps ->
  forall p,
    p ∈ idxes (collect LABEL_UNASSIGNED numLabels asprsToTrain asprsClasses ps)
    -> (0 <= p.2 < Z.of_nat numLabels)%Z.
Proof.
  intros (Hlen & _ & _ & Hlab). unfold collect.
  assert (Hseq : forall i, i ∈ seq 0 (count ps) -> i < count ps).
  { intros i Hi. apply elem_of_seq in Hi. lia. }
  revert Hseq. generalize (seq 0 (count ps)). intros l.
  assert (H0 : forall p : nat * Z,
             p ∈ idxes (mkCandidates (replicate numLabels 0%Z)
                          (replicate (count ps) false) []) ->
             (0 <= p.2 < Z.of_nat numLabels)%Z).
  { intros p Hp. by apply elem_of_nil in Hp. }
  revert H0. generalize (mkCandidates (replicate numLabels 0%Z)
                           (replicate (count ps) false) []).
  induction l as [|i l IH]; intros st Hst Hl; simpl; [done|].
  apply IH; [|intros j Hj; apply Hl; by right].
  unfold collect_point.
  destruct (lookup_lt_is_Some_2 (labels ps) i) as [g Hg].
  { rewrite Hlen. apply Hl. by left. }
  rewrite Hg. simpl.
  destruct (g =? LABEL_UNASSIGNED)%Z eqn:E; [done|].
  apply Z.eqb_neq in E.
  repeat case_match; try done.
  intros p Hp. simpl in Hp. apply elem_of_app in Hp as [Hp|Hp]; [auto|].
  apply list_elem_of_singleton in Hp as ->. simpl.
  destruct (Hlab i g Hg); [contradiction | done].
Qed.

Lemma emit_loop_subset spl (l : list (nat * Z)) : forall st p,
  p ∈ (fold_left (emit_step spl) l st).2 -> p ∈ st.2 \/ p ∈ l.
Proof.
  induction l as [|x l IH]; intros st p Hp; simpl in Hp; [by left|].
  apply IH in Hp as [Hp|Hp]; [|right; by right].
  unfold emit_step in Hp. case_match; simpl in Hp; [|by left].
  apply elem_of_app in Hp as [Hp|Hp]; [by left|].
  apply list_elem_of_singleton in Hp as ->. right. by left.
Qed.

(** Only candidates are stored. *)
Lemma emit_subset numLabels spl shuffled p :
  p ∈ emit numLabels spl shuffled -> p ∈ shuffled.
Proof.
  unfold emit. intros Hp. apply emit_loop_subset in Hp as [Hp|Hp]; [|done].
  by apply elem_of_nil in Hp.
Qed.

Lemma of_class_none c (l : list (nat * Z)) :
  (forall p, p ∈ l -> p.2 <> c) -> of_class c l = 0%Z.
Proof.
  intros H. unfold of_class.
  induction l as [|p l IH]; [done|].
  rewrite filter_cons_False by (apply H; by left).
  apply IH. intros q Hq. apply H. by right.
Qed.

Lemma collect_length LABEL_UNASSIGNED numLabels asprsToTrain asprsClasses ps :
  length (cnt (collect LABEL_UNASSIGNED numLabels asprsToTrain asprsClasses ps))
  = numLabels.
Proof.
  unfold collect. generalize (seq 0 (count ps)). intros l.
  assert (H0 : length (cnt (mkCandidates (replicate numLabels 0%Z)
                              (replicate (count ps) false) [])) = numLabels)
    by apply length_replicate.
  revert H0. generalize (mkCandidates (replicate numLabels 0%Z)
                           (replicate (count ps) false) []).
  induction l as [|i l IH]; intros st Hst; simpl; [done|].
  apply IH. unfold collect_point. repeat case_match; try done.
  simpl. unfold incr_at, alter_at. case_match; [|done].
  by rewrite length_alter.
Qed.

Lemma at_int_range {A} (l : list A) (c : Z) (x : A) :
  at_int l c = Some x -> (0 <= c < Z.of_nat (length l))%Z.
Proof.
  unfold at_int. destruct (0 <=? c)%Z eqn:E; [|done].
  apply Z.leb_le in E. intros H. apply lookup_lt_Some in H. lia.
Qed.

(** C4. For a processed file, with [count] the per-class numbers of
    candidates and [samplesPerLabel = min(min over the non-empty classes of
    count[c], maxSamples)] (the [int maxSamples] converted to [size_t], which
    changes nothing for a non-negative [maxSamples]), the sampler calls
    [storeFeatures] at most [samplesPerLabel] times for every class and
    exactly [min(count[c], samplesPerLabel)] times for class [c], which for
    a non-empty class is [samplesPerLabel]; this holds for every order in
    which the shuffle leaves the candidates. *)
Theorem C4_sampler_quota
    LABEL_UNASSIGNED numLabels asprsToTrain shuffle maxSamples asprsClasses
    i ps :
  sampler_input_ok LABEL_UNASSIGNED numLabels ps ->
  (forall l, shuffle i l ≡ₚ l) ->
  let count :=
    cnt (collect LABEL_UNASSIGNED numLabels asprsToTrain asprsClasses ps) in
  let samplesPerLabel := samplesPerLabel count maxSamples in
  let stored c :=
    of_class c (sample_file LABEL_UNASSIGNED numLabels asprsToTrain shuffle
                  maxSamples asprsClasses i ps) in
  samplesPerLabel = Z.min (min_nonempty count) (size_t_of_int maxSamples)
  /\ ((0 <= maxSamples < 2 ^ 31)%Z ->
      samplesPerLabel = Z.min (min_nonempty count) maxSamples)
  /\ (forall c, (stored c <= samplesPerLabel)%Z)
  /\ (forall c count_c, at_int count c = Some count_c ->
        stored c = Z.min count_c samplesPerLabel
        /\ ((0 < count_c)%Z -> stored c = samplesPerLabel)).
Proof.
  intros Hok Hperm count spl stored.
  set (cands := idxes (collect LABEL_UNASSIGNED numLabels asprsToTrain
                         asprsClasses ps)).
  assert (Hspl : spl = Z.min (min_nonempty count) (size_t_of_int maxSamples))
    by apply samplesPerLabel_eq.
  assert (Hnonneg : (0 <= spl)%Z) by apply samplesPerLabel_nonneg.
  assert (Hstored : forall c, (0 <= c < Z.of_nat numLabels)%Z ->
            stored c = Z.min (of_class c cands) spl).
  { intros c Hc. subst stored. unfold sample_file. fold count. fold spl.
    rewrite emit_of_class by done. fold cands.
    by rewrite (of_class_perm c _ _ (Hperm _)). }
  split_and!; [done | | |].
  - intros Hm. rewrite Hspl. unfold size_t_of_int.
    rewrite Z.mod_small; [done | lia].
  - intros c.
    destruct (decide (0 <= c < Z.of_nat numLabels)%Z) as [Hc|Hc].
    + rewrite Hstored by done. lia.
    + subst stored. cbv beta. rewrite of_class_none; [done|].
      intros p Hp Heq. apply Hc. rewrite <- Heq.
      apply emit_subset in Hp. rewrite (Hperm _) in Hp.
      by apply (collect_classes _ _ asprsToTrain asprsClasses _ Hok).
  - intros c count_c Hcount.
    assert (Hc : (0 <= c < Z.of_nat numLabels)%Z).
    { apply at_int_range in Hcount. subst count.
      by rewrite collect_length in Hcount. }
    pose proof (collect_counted LABEL_UNASSIGNED numLabels asprsToTrain
                  asprsClasses ps c Hc) as Hcounted.
    fold count cands in Hcounted.
    assert (count_c = of_class c cands) as -> by congruence.
    rewrite Hstored by done. split; [done|].
    intros Hpos. pose proof (min_nonempty_le count c _ Hcount Hpos). lia.
Qed.

Lemma C4_sampler_quota_witness :
  let count := cnt (collect demo_unassigned 2 (fun c => c) [] demo_labelled) in
  let samplesPerLabel := samplesPerLabel count 10 in
  let stored c :=
    of_class c (sample_file demo_unassigned 2 (fun c => c) demo_shuffle
                  10 [] 0 demo_labelled) in
  samplesPerLabel = Z.min (min_nonempty count) (size_t_of_int 10)
  /\ ((0 <= 10 < 2 ^ 31)%Z ->
      samplesPerLabel = Z.min (min_nonempty count) 10)
  /\ (forall c, (stored c <= samplesPerLabel)%Z)
  /\ (forall c count_c, at_int count c = Some count_c ->
        stored c = Z.min count_c samplesPerLabel
        /\ ((0 < count_c)%Z -> stored c = samplesPerLabel)).
Proof.
  apply (C4_sampler_quota demo_unassigned 2 (fun c => c) demo_shuffle 10 []
           0 demo_labelled).
  - split_and!; [reflexivity | reflexivity | |].
    + intros j idx Hj. simpl.
      destruct j as [|[|[|[|[|j]]]]]; simpl in Hj; inversion Hj; lia.
    + intros j g Hj. unfold demo_unassigned.
      destruct j as [|[|[|[|[|j]]]]]; simpl in Hj; inversion Hj; lia.
  - intros l. unfold demo_shuffle. symmetry. apply Permutation_rev.
Defined.

(** *** The loop over the files *)

Section Files.
Variable LABEL_UNASSIGNED : Z.
Variable numLabels : nat.
Variable asprsToTrain : Z -> Z.
Variable numFeatures : PointSet -> Q -> nat.
Variable shuffle : nat -> list (nat * Z) -> list (nat * Z).
Variable maxSamples : Z.
Variable asprsClasses : list Z.

Local Abbreviation file_step' :=
  (file_step LABEL_UNASSIGNED numLabels asprsToTrain numFeatures shuffle
     maxSamples asprsClasses).
Local Abbreviation files_loop' :=
  (files_loop LABEL_UNASSIGNED numLabels asprsToTrain numFeatures shuffle
     maxSamples asprsClasses).

Lemma files_loop_app a : forall b i st,
  files_loop' i (a ++ b) st = files_loop' (length a + i) b (files_loop' i a st).
Proof.
  induction a as [|ps a IH]; intros b i st; simpl; [done|].
  rewrite IH. f_equal. lia.
Qed.

(** Files without labels change nothing. *)
Lemma files_loop_skipped skipped : forall i st,
  Forall (fun ps => hasLabels ps = false) skipped ->
  files_loop' i skipped st = st.
Proof.
  induction skipped as [|ps skipped IH]; intros i st Hall; simpl; [done|].
  apply Forall_cons in Hall as [Hps Hall].
  rewrite IH by done. unfold file_step. by rewrite Hps.
Qed.

(** Once the resolution differs from the sentinel it is passed on
    unchanged, and every later [computeScales] receives it. *)
Lemma file_step_keeps st i ps :
  Qeq_bool st.1 (-1) = false ->
  (file_step' st i ps).1 = st.1
  /\ forall j res, ComputeScales j res ∈ (file_step' st i ps).2 ->
       ComputeScales j res ∈ st.2 \/ res = st.1.
Proof.
  intros Hne. unfold file_step. rewrite Hne.
  destruct (hasLabels ps); simpl; [|by auto].
  split; [done|]. intros j res Hin.
  apply elem_of_app in Hin as [Hin|Hin].
  - destruct (i =? 0).
    + apply elem_of_app in Hin as [Hin|Hin].
      * apply elem_of_app in Hin as [Hin|Hin]; [by left|].
        apply list_elem_of_singleton in Hin. right. congruence.
      * apply list_elem_of_singleton in Hin. discriminate.
    + apply elem_of_app in Hin as [Hin|Hin]; [by left|].
      apply list_elem_of_singleton in Hin. right. congruence.
  - apply list_elem_of_fmap in Hin as (p & Hp & _). discriminate.
Qed.

Lemma files_loop_keeps files : forall i st,
  Qeq_bool st.1 (-1) = false ->
  (files_loop' i files st).1 = st.1
  /\ forall j res, ComputeScales j res ∈ (files_loop' i files st).2 ->
       ComputeScales j res ∈ st.2 \/ res = st.1.
Proof.
  induction files as [|ps files IH]; intros i st Hne; simpl; [by auto|].
  destruct (file_step_keeps st i ps Hne) as [H1 H2].
  destruct (IH (S i) (file_step' st i ps)) as [H3 H4]; [by rewrite H1|].
  split; [congruence|]. intros j res Hin.
  destruct (H4 j res Hin) as [Hin' | ->]; [by apply H2 | right; congruence].
Qed.

(** A labelled file met while the resolution is still the sentinel sets
    it to its spacing and computes its scales with it. *)
Lemma file_step_sets st i ps :
  Qeq_bool st.1 (-1) = true -> hasLabels ps = true ->
  (file_step' st i ps).1 = spacing ps
  /\ ComputeScales i (spacing ps) ∈ (file_step' st i ps).2
  /\ forall j res, ComputeScales j res ∈ (file_step' st i ps).2 ->
       ComputeScales j res ∈ st.2 \/ res = spacing ps.
Proof.
  intros Heq Hhas. unfold file_step. rewrite Heq, Hhas. simpl.
  split_and!; [done | |].
  - destruct (i =? 0); rewrite !elem_of_app, !list_elem_of_singleton; auto.
  - intros j res.
    destruct (i =? 0);
      rewrite !elem_of_app, !list_elem_of_singleton, list_elem_of_fmap;
      intros H; destruct_or?; auto; try discriminate; try (right; congruence).
    + destruct H as (p & Hp & _). discriminate.
    + destruct H as (p & Hp & _). discriminate.
Qed.

(** Calls are only ever appended. *)
Lemma files_loop_mono files : forall i st x,
  x ∈ st.2 -> x ∈ (files_loop' i files st).2.
Proof.
  induction files as [|ps files IH]; intros i st x Hx; simpl; [done|].
  apply IH. unfold file_step. destruct (hasLabels ps); simpl; [|done].
  destruct (i =? 0); rewrite !elem_of_app; auto.
Qed.

Lemma filter_init_stores i (l : list (nat * Z)) :
  filter is_init (map (fun p => StoreFeatures i p.1 p.2) l) = [].
Proof.
  induction l as [|p l IH]; [done|]. simpl.
  by rewrite filter_cons_False by auto.
Qed.

(** Only the file of index 0 can bring a call of [init]. *)
Lemma files_loop_no_init files : forall i st,
  0 < i ->
  filter is_init (files_loop' i files st).2 = filter is_init st.2.
Proof.
  induction files as [|ps files IH]; intros i st Hi; simpl; [done|].
  rewrite IH by lia. unfold file_step.
  destruct (hasLabels ps); simpl; [|done].
  replace (i =? 0) with false by (symmetry; apply Nat.eqb_neq; lia).
  rewrite !filter_app, filter_init_stores.
  rewrite filter_cons_False by auto. by rewrite filter_nil, !app_nil_r.
Qed.

(** The calls of [init] that [getTrainingData] makes: one when the file
    of index 0 has labels, none otherwise (whatever the later files). *)
Lemma getTrainingData_init files startResolution :
  filter is_init
    (getTrainingData LABEL_UNASSIGNED numLabels asprsToTrain numFeatures
       shuffle maxSamples asprsClasses files startResolution).2
  = match files with
    | ps :: _ =>
        if hasLabels ps
        then [Init (numFeatures ps
                      (if Qeq_bool startResolution (-1)
                       then spacing ps else startResolution)) numLabels]
        else []
    | [] => []
    end.
Proof.
  unfold getTrainingData. destruct files as [|ps files]; [done|].
  simpl. rewrite files_loop_no_init by lia.
  unfold file_step. destruct (hasLabels ps); simpl; [|done].
  rewrite filter_cons_False by auto.
  rewrite filter_cons_True by done. by rewrite filter_init_stores.
Qed.

End Files.

(** C2, at a failing input. The file of index 0 has no labels and is
    skipped, the file of index 1 is processed: its samples are stored and
    [init] is never called, because [init] is tied to the index 0 and not
    to the first file that is processed. *)
Theorem C2_no_init_when_first_file_skipped :
  hasLabels demo_unlabelled = false
  /\ hasLabels demo_labelled = true
  /\ (getTrainingData demo_unassigned 2 (fun c => c) demo_numFeatures
        demo_shuffle 10 [] [demo_unlabelled; demo_labelled] (-1)).2
     = [ComputeScales 1 (1 # 2); StoreFeatures 1 4 1; StoreFeatures 1 0 0]
  /\ (getTrainingData demo_unassigned 2 (fun c => c) demo_numFeatures
        demo_shuffle 10 [] [demo_labelled] (-1)).2
     = [ComputeScales 0 (1 # 2); Init 3 2;
        StoreFeatures 0 4 1; StoreFeatures 0 0 0].
Proof. split_and!; reflexivity. Qed.

(** C3 (amended). When [startResolution] equals the sentinel [-1.0] on
    entry, the first file that is not skipped sets it to its [spacing()]
    (a spacing other than [-1.0]); that value is passed to [computeScales]
    for this file and for every later one, and it is the value left in
    [startResolution]. *)
Theorem C3_sentinel_resolution_from_first_file
    LABEL_UNASSIGNED numLabels asprsToTrain numFeatures shuffle maxSamples
    asprsClasses skipped first rest startResolution :
  (startResolution == -1)%Q ->
  Forall (fun ps => hasLabels ps = false) skipped ->
  hasLabels first = true ->
  ~ (spacing first == -1)%Q ->
  let result :=
    getTrainingData LABEL_UNASSIGNED numLabels asprsToTrain numFeatures
      shuffle maxSamples asprsClasses (skipped ++ first :: rest)
      startResolution in
  result.1 = spacing first
  /\ ComputeScales (length skipped) (spacing first) ∈ result.2
  /\ forall i res, ComputeScales i res ∈ result.2 -> res = spacing first.
Proof.
  intros Hsr Hskipped Hfirst Hspacing result. subst result.
  unfold getTrainingData.
  rewrite files_loop_app.
  rewrite (files_loop_skipped _ _ _ _ _ _ _ skipped 0) by done. simpl.
  rewrite Nat.add_0_r.
  destruct (file_step_sets LABEL_UNASSIGNED numLabels asprsToTrain
              numFeatures shuffle maxSamples asprsClasses
              (startResolution, []) (length skipped) first
              (proj2 (Qeq_bool_iff startResolution (-1)) Hsr) Hfirst)
    as (H1 & H2 & H3).
  set (st1 := file_step _ _ _ _ _ _ _ _ _ _) in *.
  assert (Hne : Qeq_bool st1.1 (-1) = false).
  { rewrite H1. destruct (Qeq_bool (spacing first) (-1)) eqn:E; [|done].
    apply Qeq_bool_iff in E. contradiction. }
  destruct (files_loop_keeps LABEL_UNASSIGNED numLabels asprsToTrain
              numFeatures shuffle maxSamples asprsClasses rest
              (S (length skipped)) st1 Hne) as [Hres Hcalls].
  split_and!.
  - congruence.
  - by apply files_loop_mono.
  - intros i res Hin. destruct (Hcalls i res Hin) as [Hin' | ->]; [|done].
    destruct (H3 i res Hin') as [Hnil | ->]; [|done].
    by apply elem_of_nil in Hnil.
Qed.

Lemma C3_sentinel_resolution_from_first_file_witness :
  let result :=
    getTrainingData demo_unassigned 2 (fun c => c) demo_numFeatures
      demo_shuffle 10 [] ([demo_unlabelled] ++ demo_labelled :: [demo_labelled'])
      (-1) in
  result.1 = spacing demo_labelled
  /\ ComputeScales (length [demo_unlabelled]) (spacing demo_labelled)
       ∈ result.2
  /\ forall i res, ComputeScales i res ∈ result.2 ->
       res = spacing demo_labelled.
Proof.
  apply (C3_sentinel_resolution_from_first_file demo_unassigned 2
           (fun c => c) demo_numFeatures demo_shuffle 10 []
           [demo_unlabelled] demo_labelled [demo_labelled'] (-1)).
  - reflexivity.
  - repeat constructor.
  - reflexivity.
  - discriminate.
Defined.

(** C3 as stated fails: [startResolution] is 0 on entry (it is [<= 0]),
    the first file is labelled and has spacing 1/2, and the resolution
    stays 0: it is passed to [computeScales] and left in
    [startResolution]. *)
Lemma C3_zero_resolution_not_derived :
  (0 <= 0)%Q
  /\ hasLabels demo_labelled = true
  /\ spacing demo_labelled = (1 # 2)%Q
  /\ getTrainingData demo_unassigned 2 (fun c => c) demo_numFeatures
       demo_shuffle 10 [] [demo_labelled] 0
     = (0%Q, [ComputeScales 0 0; Init 3 2;
              StoreFeatures 0 4 1; StoreFeatures 0 0 0])
  /\ ~ (0 == spacing demo_labelled)%Q.
Proof. split_and!; [discriminate | reflexivity.. | discriminate]. Qed.

End TrainingFacts.

(** ** The split threshold of a Gini node *)

Section GiniFacts.
Import Gini.

#[local] Instance pair_le_total : Total pair_le.
Proof.
  intros x y. unfold pair_le, pair_ltb.
  destruct (Qltb y.1 x.1) eqn:Eyx, (Qltb x.1 y.1) eqn:Exy; simpl; auto.
  - apply Qltb_lt in Eyx, Exy. lra.
  - destruct (x.2 <? y.2)%Z eqn:E; [|by right].
    left. apply Z.ltb_lt in E. apply Z.ltb_ge. lia.
Qed.

Lemma pair_le_fst x y : pair_le x y -> (x.1 <= y.1)%Q.
Proof.
  unfold pair_le, pair_ltb. intros H.
  apply orb_false_iff in H as [H _]. by apply Qltb_ge in H.
Qed.

Lemma adjacent_sorted l : Sorted pair_le l ->
  forall a b, adjacent l a b -> pair_le a b.
Proof.
  induction 1 as [|x l Hs IH Hd]; intros a b [i [Ha Hb]]; [done|].
  destruct i as [|i]; simpl in Ha, Hb.
  - injection Ha as ->. destruct Hd as [|y l Hxy]; [done|].
    simpl in Hb. by injection Hb as ->.
  - apply IH. by exists i.
Qed.

Lemma adjacent_app_l l x a b : adjacent l a b -> adjacent (l ++ [x]) a b.
Proof.
  intros [i [Ha Hb]]. exists i. split; by apply lookup_app_l_Some.
Qed.

Lemma adjacent_last pre prev cur : adjacent ((pre ++ [prev]) ++ [cur]) prev cur.
Proof.
  exists (length pre). split.
  - apply lookup_app_l_Some. rewrite lookup_app_r by lia.
    by rewrite Nat.sub_diag.
  - rewrite lookup_app_r by (rewrite length_app; simpl; lia).
    rewrite length_app. simpl.
    by replace (S (length pre) - (length pre + 1)) with 0 by lia.
Qed.

Lemma adjacent_snoc_inv pre prev cur a b :
  adjacent ((pre ++ [prev]) ++ [cur]) a b ->
  adjacent (pre ++ [prev]) a b \/ (a = prev /\ b = cur).
Proof.
  intros [i [Ha Hb]]. apply lookup_snoc_inv in Hb as [Hb|[Hi ->]].
  - left. exists i. split; [|done].
    apply lookup_lt_Some in Hb. rewrite lookup_app_l in Ha by lia. done.
  - right. split; [|done]. rewrite length_app in Hi. simpl in Hi.
    rewrite lookup_app_l in Ha by (rewrite length_app; simpl; lia).
    rewrite lookup_app_r in Ha by lia.
    replace (i - length pre) with 0 in Ha by lia. simpl in Ha. congruence.
Qed.

Section Scan.
Context {RandomGen : Type}.
Variable fraction_dist : RandomGen -> Q * RandomGen.
Hypothesis fraction_unit : forall g, (0 <= (fraction_dist g).1 <= 1)%Q.

Lemma scan_step_ok pre prev cur st :
  best_ok (pre ++ [prev]) st ->
  best_ok ((pre ++ [prev]) ++ [cur]) (scan_step fraction_dist prev cur st).
Proof.
  intros Hinv. unfold scan_step.
  destruct (Qeq_bool prev.1 cur.1) eqn:Eq.
  - apply Qeq_bool_iff in Eq.
    destruct Hinv as [(Hl & Ht & Hall)|(loss & a & b & f & Hl & Hadj & Hne & Hf & Ht)].
    + left. split_and!; [done..|]. intros a b Hab.
      apply adjacent_snoc_inv in Hab as [Hab|[-> ->]]; auto.
    + right. exists loss, a, b, f.
      split_and!; auto using adjacent_app_l; apply Hf.
  - unfold try_split.
    cbn [n_l n_r classes_l classes_r best_loss best_thresh gen].
    match goal with |- context [xltb (Fin ?gini) _] => set (g := gini) end.
    destruct (xltb (Fin g) (best_loss st)) eqn:Elt.
    + right. exists g, prev, cur, (fraction_dist (gen st)).1.
      split_and!;
        [done | apply adjacent_last | | apply fraction_unit..  | done].
      intros Heq. apply Qeq_bool_iff in Heq. congruence.
    + destruct Hinv as [(Hl & Ht & Hall)|(loss & a & b & f & Hl & Hadj & Hne & Hf & Ht)].
      * rewrite Hl in Elt. discriminate.
      * right. exists loss, a, b, f.
      split_and!; auto using adjacent_app_l; apply Hf.
Qed.

Lemma scan_ok rest : forall pre prev st,
  best_ok (pre ++ [prev]) st ->
  best_ok (pre ++ prev :: rest) (scan fraction_dist prev rest st).
Proof.
  induction rest as [|cur rest IH]; intros pre prev st Hinv; simpl; [done|].
  replace (pre ++ prev :: cur :: rest) with ((pre ++ [prev]) ++ cur :: rest)
    by (by rewrite <- app_assoc).
  apply IH. by apply scan_step_ok.
Qed.

Lemma determine_best_threshold_ok n_classes data_points g :
  best_ok (merge_sort pair_le data_points)
          (determine_best_threshold fraction_dist n_classes data_points g).
Proof.
  unfold determine_best_threshold.
  destruct (merge_sort pair_le data_points) as [|first rest].
  - left. split_and!; [done..|]. intros a b [i [Ha _]]. done.
  - apply (scan_ok rest [] first). left. split_and!; [done..|].
    intros a b [i [_ Hb]]. by destruct i.
Qed.

End Scan.

Lemma between_convex (a b f : Q) :
  (a <= b)%Q -> (0 <= f <= 1)%Q ->
  (a <= f * a + (1 - f) * b <= b)%Q.
Proof. intros Hab Hf. split; nra. Qed.

(** C10. Let [sorted] be the data as line 50 sorts them. If two neighbours
    of [sorted] have different feature values, the returned threshold is
    [fraction * a + (1 - fraction) * b] for two neighbours [a < b] of
    [sorted] and a drawn [fraction] in [0,1]; it lies between [a] and [b],
    hence between any bounds of the feature values of the input, and the
    returned loss is finite. If all neighbours have equal values, the
    threshold is 0 and the loss is [+inf]. (The generator draws its
    fractions from [0,1].) *)
Theorem C10_threshold_between_adjacent_values
    {RandomGen : Type} (fraction_dist : RandomGen -> Q * RandomGen)
    n_classes data_points g :
  (forall g', (0 <= (fraction_dist g').1 <= 1)%Q) ->
  let sorted := merge_sort pair_le data_points in
  let result :=
    determine_best_threshold fraction_dist n_classes data_points g in
  ((exists a b, adjacent sorted a b /\ ~ (a.1 == b.1)%Q) ->
   exists a b fraction loss,
     adjacent sorted a b /\ (a.1 < b.1)%Q /\ (0 <= fraction <= 1)%Q
     /\ best_thresh result = (fraction * a.1 + (1 - fraction) * b.1)%Q
     /\ (a.1 <= best_thresh result <= b.1)%Q
     /\ best_loss result = Fin loss
     /\ forall lo hi,
          (forall p, p ∈ data_points -> (lo <= p.1 <= hi)%Q) ->
          (lo <= best_thresh result <= hi)%Q)
  /\ ((forall a b, adjacent sorted a b -> (a.1 == b.1)%Q) ->
      best_thresh result = 0%Q /\ best_loss result = PInf).
Proof.
  intros Hunit sorted result.
  pose proof (determine_best_threshold_ok fraction_dist Hunit n_classes
                data_points g) as Hok.
  fold sorted result in Hok.
  assert (Hsorted : Sorted pair_le sorted) by apply (Sorted_merge_sort _).
  split.
  - intros (a0 & b0 & Hadj0 & Hne0).
    destruct Hok as [(_ & _ & Hall)|(loss & a & b & f & Hl & Hadj & Hne & Hf & Ht)].
    { destruct Hne0. by apply Hall. }
    assert (Hlt : (a.1 < b.1)%Q).
    { pose proof (pair_le_fst _ _ (adjacent_sorted _ Hsorted _ _ Hadj)) as Hle.
      apply Qle_lteq in Hle as [Hlt|Heq]; [done | contradiction]. }
    assert (Hbetween : (a.1 <= best_thresh result <= b.1)%Q).
    { rewrite Ht. apply between_convex; [lra | done]. }
    exists a, b, f, loss. split_and!; try done; try apply Hf; try apply Hbetween.
    intros lo hi Hbounds.
    assert (Hin : forall x, (exists i, sorted !! i = Some x) -> x ∈ data_points).
    { intros x Hx. apply list_elem_of_lookup in Hx.
      subst sorted. by rewrite merge_sort_Permutation in Hx. }
    destruct Hadj as [i [Ha Hb]].
    pose proof (Hbounds a (Hin a (ex_intro _ _ Ha))) as Hba.
    pose proof (Hbounds b (Hin b (ex_intro _ _ Hb))) as Hbb.
    lra.
  - intros Hall.
    destruct Hok as [(Hl & Ht & _)|(loss & a & b & f & Hl & Hadj & Hne & Hf & Ht)].
    + done.
    + destruct Hne. by apply Hall.
Qed.

Lemma C10_threshold_between_adjacent_values_witness :
  let sorted := merge_sort pair_le demo_data in
  let result := determine_best_threshold demo_fraction 2 demo_data 0 in
  exists a b fraction loss,
    adjacent sorted a b /\ (a.1 < b.1)%Q /\ (0 <= fraction <= 1)%Q
    /\ best_thresh result = (fraction * a.1 + (1 - fraction) * b.1)%Q
    /\ (a.1 <= best_thresh result <= b.1)%Q
    /\ best_loss result = Fin loss
    /\ forall lo hi,
         (forall p, p ∈ demo_data -> (lo <= p.1 <= hi)%Q) ->
         (lo <= best_thresh result <= hi)%Q.
Proof.
  assert (Hunit : forall g', (0 <= (demo_fraction g').1 <= 1)%Q).
  { intros g'. unfold demo_fraction. cbn [fst].
    destruct (g' mod 4) as [|[|[|n]]]; split; unfold Qle; simpl; lia. }
  apply (proj1 (C10_threshold_between_adjacent_values demo_fraction 2
                  demo_data 0 Hunit)).
  exists (2, 0%Z)%Q, (3, 1%Z)%Q. split; [|discriminate].
  exists 2. split; reflexivity.
Defined.

End GiniFacts.

(** * Further properties of the code *)

(** ** Inference without regularization: the range of the labels *)

Section InferenceRange.
Import Inference.

(** The search returns the initial class or a position it has visited. *)
Lemma best_loop_index probs : forall j b v,
  (best_loop probs j b v).1 = b
  \/ j <= (best_loop probs j b v).1 < j + length probs.
Proof.
  induction probs as [|p rest IH]; intros j b v; simpl; [by left|].
  destruct (Qltb v p).
  - right. destruct (IH (S j) j p) as [->|H]; lia.
  - destruct (IH (S j) b v) as [H|H]; [by left | right; lia].
Qed.

Lemma findBest_lt probs : probs <> [] -> findBest probs < length probs.
Proof.
  intros Hne. unfold findBest.
  destruct (best_loop_index probs 0 0 0%Q) as [->|H]; [|lia].
  destruct probs; [done | simpl; lia].
Qed.

(** X1. With [regularization = None], [base.labels] ends with exactly one
    entry per base point, and every entry is a class index below the
    number of labels [L], whatever values the evaluator writes (no sign
    or normalisation is needed). It takes [L >= 1] and an evaluator that
    fills the [L] entries of the buffer. *)
Theorem X1_none_labels_in_range
    features evaluateFunc baseCount baseLabels L :
  0 < L ->
  (forall i, i < baseCount -> length (evaluateFunc (gather features i)) = L) ->
  length (classify_none features evaluateFunc baseCount baseLabels) = baseCount
  /\ forall i l,
       classify_none features evaluateFunc baseCount baseLabels !! i = Some l ->
       (0 <= l < Z.of_nat L)%Z.
Proof.
  intros HL Hlen. unfold classify_none. split.
  - by rewrite classify_none_length, length_resize.
  - intros i l Hl.
    assert (Hi : i < baseCount).
    { apply lookup_lt_Some in Hl.
      by rewrite classify_none_length, length_resize in Hl. }
    rewrite classify_none_lookup in Hl by (rewrite ?length_resize; done).
    injection Hl as <-.
    assert (findBest (evaluateFunc (gather features i)) < L); [|lia].
    rewrite <- (Hlen i Hi). apply findBest_lt.
    intros Hnil. specialize (Hlen i Hi). rewrite Hnil in Hlen. simpl in Hlen. lia.
Qed.

Lemma X1_none_labels_in_range_witness :
  length (classify_none demo_features demo_evaluate 2 [7%Z]) = 2
  /\ forall i l,
       classify_none demo_features demo_evaluate 2 [7%Z] !! i = Some l ->
       (0 <= l < Z.of_nat 3)%Z.
Proof.
  apply (X1_none_labels_in_range demo_features demo_evaluate 2 [7%Z] 3).
  - lia.
  - intros i Hi. destruct i as [|[|i]]; [reflexivity | reflexivity | lia].
Defined.

End InferenceRange.

(** ** The label writer: skip map, default mode, frame *)

Section WriterMore.
Import Writer.

(** X2. The skip map marks exactly the requested codes: for a skip list
    that stays within the 255 entries of the map (no code 255), a code in
    0..254 is marked if and only if it occurs in the list; negative codes
    and codes above 255 in the list are ignored. *)
Theorem X2_skipMap_marks_exactly_the_list skip (c : Z) :
  (forall s, s ∈ skip -> s <> 255%Z) ->
  (0 <= c < 255)%Z ->
  length (build_skipMap skip) = 255
  /\ (at_int (build_skipMap skip) c = Some true <-> c ∈ skip).
Proof.
  intros _ Hc. split.
  - unfold build_skipMap. by rewrite skip_fold_length, length_replicate.
  - split; [|intros Hin; by apply build_skipMap_marks].
    unfold at_int, build_skipMap.
    replace (0 <=? c)%Z with true by (symmetry; apply Z.leb_le; lia).
    intros H. apply build_skipMap_from_inv in H as [H|H].
    + apply lookup_replicate in H as [? _]. done.
    + by rewrite Z2Nat.id in H by lia.
Qed.

Lemma X2_skipMap_marks_exactly_the_list_witness :
  length (build_skipMap [2; -4; 300; 6]%Z) = 255
  /\ (at_int (build_skipMap [2; -4; 300; 6]%Z) 6 = Some true
      <-> 6%Z ∈ [2; -4; 300; 6]%Z).
Proof.
  apply (X2_skipMap_marks_exactly_the_list [2; -4; 300; 6]%Z 6).
  - intros s Hs. rewrite !elem_of_cons, elem_of_nil in Hs.
    destruct_or!; subst; done.
  - lia.
Defined.

Section Modes.
Variable LABEL_UNCLASSIFIED : Z.
Variable train2asprsCodes : Z -> Z.
Variable labelSet : list Label.
Variable unclassifiedOnly : bool.
Variable skip : list Z.

Local Abbreviation write_labels' useColors :=
  (write_labels LABEL_UNCLASSIFIED train2asprsCodes labelSet useColors
     unclassifiedOnly skip).
Local Abbreviation update' :=
  (update_flag LABEL_UNCLASSIFIED labelSet unclassifiedOnly
     (build_skipMap skip)).

(** The point set on which the sweep starts (line 357). *)
Lemma write_labels_unfold useColors ps :
  write_labels' useColors ps
  = fold_left
      (write_point LABEL_UNCLASSIFIED train2asprsCodes labelSet useColors
         unclassifiedOnly (build_skipMap skip))
      (seq 0 (count ps))
      (if negb useColors && negb (hasLabels ps)
       then set_labels ps (resize (count ps) 0%Z (labels ps)) else ps).
Proof. reflexivity. Qed.

Lemma hasLabels_true ps : labels ps <> [] -> hasLabels ps = true.
Proof. unfold hasLabels. by destruct (labels ps). Qed.

End Modes.

(** X3. In the default mode ([useColors = false]) on a surface that
    carries one label per point, with ASPRS codes of the labels within
    0..254 and no code 255 in the skip list (the range of the skip map),
    [classifyData] leaves [colors] untouched and gives every surface point
    [i] the value [train2asprs[labels[i]]] when the point is held back,
    by [unclassifiedOnly] ([labels[i]] is not [LABEL_UNCLASSIFIED]) or
    because the ASPRS code of the label inferred for [pointMap[i]] is in
    the skip list, and that ASPRS code otherwise. *)
Theorem X3_default_mode_writes_asprs_codes
    LABEL_UNCLASSIFIED train2asprsCodes labelSet unclassifiedOnly skip ps :
  labels ps <> [] ->
  length (labels ps) = count ps ->
  classes_in_range labelSet ps ->
  skipMap_in_bounds labelSet skip ->
  let ps' := write_labels LABEL_UNCLASSIFIED train2asprsCodes labelSet
               false unclassifiedOnly skip ps in
  colors ps' = colors ps
  /\ length (labels ps') = count ps
  /\ forall i cur, labels ps !! i = Some cur ->
       labels ps' !! i
       = Some (if (unclassifiedOnly && negb (cur =? LABEL_UNCLASSIFIED)%Z)
                  || bool_decide
                       (getAsprsCode (best_label labelSet ps i) ∈ skip)
               then train2asprsCodes cur
               else getAsprsCode (best_label labelSet ps i)).
Proof.
  intros Hne Hlen Hwf Hbounds ps'. subst ps'. rewrite write_labels_unfold.
  rewrite (hasLabels_true ps Hne). simpl.
  destruct (write_sweep LABEL_UNCLASSIFIED train2asprsCodes labelSet
              false unclassifiedOnly (build_skipMap skip)
              (count ps) ps) as (_ & _ & _ & Hl & Hlab & Hcol).
  split_and!.
  - apply list_eq. intros j. rewrite Hcol.
    case_decide; [|done]. unfold color_after. rewrite andb_false_r.
    by destruct (colors ps !! j).
  - congruence.
  - intros i cur Hcur.
    assert (Hi : i < count ps) by (apply lookup_lt_Some in Hcur; lia).
    rewrite Hlab, decide_True by done.
    rewrite Hcur. simpl. f_equal. unfold label_after.
    rewrite update_flag_in_bounds by done.
    rewrite (hasLabels_true ps Hne), Hcur, andb_true_r. cbn [default id].
    destruct (unclassifiedOnly && negb (cur =? LABEL_UNCLASSIFIED)%Z);
      by destruct (bool_decide _).
Qed.

Lemma X3_default_mode_writes_asprs_codes_witness :
  let ps' := write_labels demo_unclassified demo_train2asprs demo_labelSet
               false false [] demo_ps in
  colors ps' = colors demo_ps
  /\ length (labels ps') = count demo_ps
  /\ forall i cur, labels demo_ps !! i = Some cur ->
       labels ps' !! i
       = Some (if (false && negb (cur =? demo_unclassified)%Z)
                  || bool_decide
                       (getAsprsCode (best_label demo_labelSet demo_ps i)
                        ∈ ([] : list Z))
               then demo_train2asprs cur
               else getAsprsCode (best_label demo_labelSet demo_ps i)).
Proof.
  apply (X3_default_mode_writes_asprs_codes demo_unclassified
           demo_train2asprs demo_labelSet false [] demo_ps).
  - discriminate.
  - reflexivity.
  - intros i Hi. exists 0, 0%Z, (mkLabel 2 (mkColor 192 192 192)).
    destruct i as [|[|i]]; [done | done | simpl in Hi; lia].
  - split; [|apply not_elem_of_nil].
    intros l Hl. apply list_elem_of_singleton in Hl as ->. simpl. lia.
Defined.

(** X4. In the default mode on a surface without labels, with ASPRS codes
    of the labels within 0..254 and no code 255 in the skip list (the range
    of the skip map), [classifyData] creates the [labels] array with one
    entry per surface point. The entries start at 0, so with
    [unclassifiedOnly = false] every point receives the ASPRS code of its
    inferred label, or [train2asprs[0]] when that code is in the skip list;
    with [unclassifiedOnly = true] the same holds if [LABEL_UNCLASSIFIED]
    is 0, and otherwise every entry becomes [train2asprs[0]]. *)
Theorem X4_default_mode_creates_labels
    LABEL_UNCLASSIFIED train2asprsCodes labelSet unclassifiedOnly skip ps :
  labels ps = [] ->
  classes_in_range labelSet ps ->
  skipMap_in_bounds labelSet skip ->
  let ps' := write_labels LABEL_UNCLASSIFIED train2asprsCodes labelSet
               false unclassifiedOnly skip ps in
  length (labels ps') = count ps
  /\ forall i, i < count ps ->
       labels ps' !! i
       = Some (if unclassifiedOnly && negb (0 =? LABEL_UNCLASSIFIED)%Z
               then train2asprsCodes 0%Z
               else if bool_decide
                         (getAsprsCode (best_label labelSet ps i) ∈ skip)
               then train2asprsCodes 0%Z
               else getAsprsCode (best_label labelSet ps i)).
Proof.
  intros Hnil Hwf [Hb _] ps'. subst ps'. rewrite write_labels_unfold.
  assert (hasLabels ps = false) as -> by (unfold hasLabels; by rewrite Hnil).
  rewrite Hnil. cbn [negb andb]. rewrite resize_nil.
  set (ps1 := set_labels ps (replicate (count ps) 0%Z)).
  destruct (write_sweep LABEL_UNCLASSIFIED train2asprsCodes labelSet
              false unclassifiedOnly (build_skipMap skip)
              (count ps) ps1) as (_ & _ & _ & Hl & Hlab & _).
  split.
  - rewrite Hl. subst ps1. simpl. by rewrite length_replicate.
  - intros i Hi. rewrite Hlab, decide_True by done.
    assert (Hcur : labels ps1 !! i = Some 0%Z).
    { subst ps1. simpl. by apply lookup_replicate_2. }
    rewrite Hcur. simpl. f_equal.
    assert (Hhas : hasLabels ps1 = true).
    { apply hasLabels_true. intros Hn. by rewrite Hn in Hcur. }
    unfold label_after, update_flag. rewrite Hhas, Hcur. simpl.
    change (best_label labelSet ps1 i) with (best_label labelSet ps i).
    rewrite build_skipMap_lookup by (apply Hb; by apply best_label_in).
    cbn [default]. rewrite andb_true_r.
    destruct (unclassifiedOnly && negb (0 =? LABEL_UNCLASSIFIED)%Z);
      by repeat case_match.
Qed.

Lemma X4_default_mode_creates_labels_witness :
  let ps0 := set_labels demo_ps [] in
  let ps' := write_labels demo_unclassified demo_train2asprs demo_labelSet
               false true [] ps0 in
  length (labels ps') = count ps0
  /\ forall i, i < count ps0 ->
       labels ps' !! i
       = Some (if true && negb (0 =? demo_unclassified)%Z
               then demo_train2asprs 0%Z
               else if bool_decide
                         (getAsprsCode (best_label demo_labelSet ps0 i)
                          ∈ ([] : list Z))
               then demo_train2asprs 0%Z
               else getAsprsCode (best_label demo_labelSet ps0 i)).
Proof.
  apply (X4_default_mode_creates_labels demo_unclassified demo_train2asprs
           demo_labelSet true [] (set_labels demo_ps [])).
  - reflexivity.
  - intros i Hi. exists 0, 0%Z, (mkLabel 2 (mkColor 192 192 192)).
    destruct i as [|[|i]]; [done | done | simpl in Hi; lia].
  - split; [|apply not_elem_of_nil].
    intros l Hl. apply list_elem_of_singleton in Hl as ->. simpl. lia.
Defined.

End WriterMore.

(** ** The training sampler: candidates, stored samples, files *)

Section SamplerMore.
Import Training SamplerSpec.

Section Candidates.
Variable LABEL_UNASSIGNED : Z.
Variable numLabels : nat.
Variable asprsToTrain : Z -> Z.
Variable asprsClasses : list Z.
Variable ps : PointSet.
Hypothesis Hok : sampler_input_ok LABEL_UNASSIGNED numLabels ps.

Local Abbreviation collect_point' :=
  (collect_point LABEL_UNASSIGNED asprsToTrain asprsClasses ps).
Local Abbreviation eligible' :=
  (eligible LABEL_UNASSIGNED asprsToTrain asprsClasses).
Local Abbreviation collected' :=
  (collected LABEL_UNASSIGNED asprsToTrain asprsClasses ps).

(** What one iteration does, in terms of [eligible]. *)
Lemma collect_point_cases st k idx g :
  pointMap ps !! k = Some idx -> labels ps !! k = Some g ->
  collect_point' st k
  = if eligible' g && negb (default false (sampled st !! idx))
    then mkCandidates (incr_at g (cnt st)) (<[idx := true]> (sampled st))
           (idxes st ++ [(idx, g)])
    else st.
Proof.
  intros Hidx Hg. unfold collect_point, eligible. rewrite Hidx, Hg. simpl.
  destruct (g =? LABEL_UNASSIGNED)%Z; simpl; [done|].
  destruct (trainSubset asprsClasses && _); simpl; [done|].
  by destruct (default false (sampled st !! idx)).
Qed.

Lemma collect_step_collected st k :
  k < count ps -> collected' k st -> collected' (S k) (collect_point' st k).
Proof.
  intros Hk (Hlen & Hnd & Hsam & Hcov & Hchar).
  destruct Hok as (Hl & Hp & Hrange & _).
  destruct (lookup_lt_is_Some_2 (pointMap ps) k) as [idx Hidx]; [lia|].
  destruct (lookup_lt_is_Some_2 (labels ps) k) as [g Hg]; [lia|].
  rewrite (collect_point_cases st k idx g Hidx Hg).
  assert (Hkeep : forall st', st' = st ->
            (eligible' g = true -> idx ∈ (idxes st).*1) ->
            collected' (S k) st').
  { intros st' -> Hin. split_and!; try done.
    - intros j idx' g' Hj Hpm Hlab Hel.
      destruct (decide (j = k)) as [->|Hne]; [|eapply Hcov; eauto; lia].
      assert (idx' = idx) as -> by congruence.
      assert (g' = g) as -> by congruence. auto.
    - intros idx' g'. rewrite Hchar. split.
      + intros (j & Hj & Hfe). exists j. split; [lia | done].
      + intros (j & Hj & Hfe). destruct (decide (j = k)) as [->|Hne];
          [|exists j; split; [lia | done]].
        destruct Hfe as (Hpm & Hlab & Hel & Hfirst).
        assert (idx' = idx) as -> by congruence.
        assert (g' = g) as -> by congruence.
        specialize (Hin Hel).
        apply list_elem_of_fmap in Hin as ([idx0 g0] & Heq & Hin).
        simpl in Heq. subst idx0.
        apply Hchar in Hin as (j0 & Hj0 & Hpm0 & Hlab0 & Hel0 & _).
        rewrite (Hfirst j0 g0 Hj0 Hpm0 Hlab0) in Hel0. done. }
  destruct (eligible' g) eqn:Hel; simpl; [|by apply Hkeep].
  destruct (sampled st !! idx) as [[|]|] eqn:Hs; simpl.
  - apply Hkeep; [done|]. intros _. by apply Hsam.
  - assert (Hnotin : idx ∉ (idxes st).*1).
    { intros Hin. apply Hsam in Hin. congruence. }
    split_and!; simpl.
    + by rewrite length_insert.
    + rewrite fmap_app. simpl. apply NoDup_app. split_and!; [done| |].
      * intros x Hx Hx'. apply list_elem_of_singleton in Hx'. by subst.
      * apply NoDup_singleton.
    + intros idx'. rewrite fmap_app, elem_of_app. simpl.
      rewrite list_elem_of_singleton, <- Hsam.
      destruct (decide (idx' = idx)) as [->|Hne].
      * split; [by right|]. intros _. apply list_lookup_insert_eq.
        by apply lookup_lt_Some in Hs.
      * rewrite list_lookup_insert_ne by done.
        split; [by left | intros [?|?]; done].
    + intros j idx' g' Hj Hpm Hlab Hel'.
      rewrite fmap_app, elem_of_app. simpl.
      destruct (decide (j = k)) as [->|Hne].
      * right. apply list_elem_of_singleton. congruence.
      * left. eapply Hcov; eauto. lia.
    + intros idx' g'. rewrite elem_of_app, list_elem_of_singleton, Hchar.
      split.
      * intros [(j & Hj & Hfe)|Heq]; [exists j; split; [lia|done]|].
        injection Heq as -> ->. exists k. split; [lia|].
        split_and!; [done..|].
        intros j' g' Hj' Hpm' Hlab'.
        destruct (eligible' g') eqn:E; [|done].
        destruct Hnotin. eapply Hcov; eauto.
      * intros (j & Hj & Hfe). destruct (decide (j = k)) as [->|Hne].
        -- right. destruct Hfe as (Hpm & Hlab & _). congruence.
        -- left. exists j. split; [lia | done].
  - apply lookup_ge_None in Hs. specialize (Hrange k idx Hidx). lia.
Qed.

Lemma collect_prefix_collected k :
  k <= count ps ->
  collected' k
    (fold_left collect_point' (seq 0 k)
       (mkCandidates (replicate numLabels 0%Z)
          (replicate (count ps) false) [])).
Proof.
  induction k as [|k IH]; intros Hk.
  - simpl. split_and!; simpl.
    + apply length_replicate.
    + constructor.
    + intros idx. split; [|intros H; by apply elem_of_nil in H].
      intros H. apply lookup_replicate in H as [? _]. done.
    + intros; lia.
    + intros idx g. split; [intros H; by apply elem_of_nil in H|].
      intros (j & Hj & _). lia.
  - rewrite seq_S, fold_left_app. simpl.
    apply collect_step_collected; [lia|]. apply IH. lia.
Qed.

Lemma collect_collected :
  collected' (count ps)
    (collect LABEL_UNASSIGNED numLabels asprsToTrain asprsClasses ps).
Proof. apply collect_prefix_collected. done. Qed.

End Candidates.

(** X5. The candidates of a file: every working-set point occurs at most
    once among them, and [(idx, g)] is a candidate exactly when [g] is the
    label of the first surface point that maps to [idx] and whose label is
    eligible (assigned, and in the training subset when one was
    requested). It takes a file whose arrays have one entry per surface
    point and whose [pointMap] entries are point indices. *)
Theorem X5_candidates_are_first_eligible_occurrences
    LABEL_UNASSIGNED numLabels asprsToTrain asprsClasses ps :
  sampler_input_ok LABEL_UNASSIGNED numLabels ps ->
  let cands :=
    idxes (collect LABEL_UNASSIGNED numLabels asprsToTrain asprsClasses ps) in
  NoDup cands.*1
  /\ forall idx g,
       (idx, g) ∈ cands
       <-> exists j, j < count ps
             /\ first_eligible LABEL_UNASSIGNED asprsToTrain asprsClasses
                  ps j idx g.
Proof.
  intros Hok cands.
  destruct (collect_collected LABEL_UNASSIGNED numLabels asprsToTrain
              asprsClasses ps Hok) as (_ & Hnd & _ & _ & Hchar).
  split; [exact Hnd | exact Hchar].
Qed.

Lemma X5_candidates_are_first_eligible_occurrences_witness :
  let cands := idxes (collect demo_unassigned 2 (fun c => c) [] demo_labelled) in
  NoDup cands.*1
  /\ forall idx g,
       (idx, g) ∈ cands
       <-> exists j, j < count demo_labelled
             /\ first_eligible demo_unassigned (fun c => c) []
                  demo_labelled j idx g.
Proof.
  apply (X5_candidates_are_first_eligible_occurrences demo_unassigned 2
           (fun c => c) [] demo_labelled).
  split_and!; [reflexivity | reflexivity | |].
  - intros j idx Hj. simpl.
    destruct j as [|[|[|[|[|j]]]]]; simpl in Hj; inversion Hj; lia.
  - intros j g Hj. unfold demo_unassigned.
    destruct j as [|[|[|[|[|j]]]]]; simpl in Hj; inversion Hj; lia.
Defined.

(** *** The training subset *)

Lemma trainClass_fold_length (asprsToTrain : Z -> Z) (cs : list Z) :
  forall tc : list bool,
  length (fold_left
            (fun tc c =>
               if (0 <=? asprsToTrain c)%Z
               then <[Z.to_nat (asprsToTrain c) := true]> tc else tc)
            cs tc) = length tc.
Proof.
  induction cs as [|c cs IH]; intros tc; simpl; [done|].
  rewrite IH. case_match; [by rewrite length_insert | done].
Qed.

Lemma trainClass_fold_lookup (asprsToTrain : Z -> Z) (cs : list Z) :
  forall (tc : list bool) (n : nat),
  n < length tc ->
  (forall c, c ∈ cs -> (0 <= asprsToTrain c)%Z) ->
  fold_left
    (fun tc c =>
       if (0 <=? asprsToTrain c)%Z
       then <[Z.to_nat (asprsToTrain c) := true]> tc else tc)
    cs tc !! n = Some true
  <-> tc !! n = Some true \/ exists c, c ∈ cs /\ asprsToTrain c = Z.of_nat n.
Proof.
  induction cs as [|c cs IH]; intros tc n Hn Hpos; simpl.
  - split; [by left|]. intros [H|(c & Hc & _)]; [done|].
    by apply elem_of_nil in Hc.
  - assert (Hc : (0 <= asprsToTrain c)%Z) by (apply Hpos; by left).
    replace (0 <=? asprsToTrain c)%Z with true
      by (symmetry; by apply Z.leb_le).
    rewrite IH; [|by rewrite length_insert|intros; apply Hpos; by right].
    destruct (decide (Z.to_nat (asprsToTrain c) = n)) as [Heq|Hne].
    + subst n. rewrite list_lookup_insert_eq by done. split.
      * intros _. right. exists c. split; [by left | lia].
      * intros _. by left.
    + rewrite list_lookup_insert_ne by done. split.
      * intros [H|(c' & Hc' & Heq)]; [by left|].
        right. exists c'. split; [by right | done].
      * intros [H|(c' & Hc' & Heq)]; [by left|].
        apply elem_of_cons in Hc' as [->|Hc']; [lia|].
        right. by exists c'.
Qed.

(** X6. Which labels are sampled: a training code [g] in 0..254 is
    eligible exactly when it is not [LABEL_UNASSIGNED] and either no
    training subset was requested or some requested ASPRS class
    translates to [g]. It takes requested classes that translate into the
    255 entries of [trainClass]. *)
Theorem X6_eligible_iff_assigned_and_requested
    LABEL_UNASSIGNED asprsToTrain asprsClasses (g : Z) :
  (forall c, c ∈ asprsClasses -> (0 <= asprsToTrain c < 255)%Z) ->
  (0 <= g < 255)%Z ->
  eligible LABEL_UNASSIGNED asprsToTrain asprsClasses g = true
  <-> g <> LABEL_UNASSIGNED
      /\ (asprsClasses = []
          \/ exists c, c ∈ asprsClasses /\ asprsToTrain c = g).
Proof.
  intros Hcs Hg. unfold eligible.
  rewrite andb_true_iff, !negb_true_iff, Z.eqb_neq.
  apply and_iff_compat_l.
  destruct asprsClasses as [|c0 cs] eqn:Ecs; [simpl; split; auto|].
  rewrite <- Ecs in *.
  assert (trainSubset asprsClasses = true) as -> by (by rewrite Ecs).
  rewrite andb_true_l, negb_false_iff.
  assert (Hlook : at_int (trainClass asprsToTrain asprsClasses) g = Some true
                  <-> exists c, c ∈ asprsClasses /\ asprsToTrain c = g).
  { unfold at_int, trainClass.
    replace (0 <=? g)%Z with true by (symmetry; apply Z.leb_le; lia).
    rewrite trainClass_fold_lookup;
      [|rewrite length_replicate; lia|intros c Hc; specialize (Hcs c Hc); lia].
    rewrite Z2Nat.id by lia. split; [|by right].
    intros [H|H]; [|done]. apply lookup_replicate in H as [? _]. done. }
  split.
  - intros H. right. apply Hlook.
    destruct (at_int _ g) as [[|]|]; done.
  - intros [Hnil|H]; [by rewrite Ecs in Hnil|].
    apply Hlook in H. by rewrite H.
Qed.

Lemma X6_eligible_iff_assigned_and_requested_witness :
  eligible demo_unassigned (fun c => (c - 2)%Z) [2; 6]%Z 4 = true
  <-> 4%Z <> demo_unassigned
      /\ (([2; 6]%Z : list Z) = []
          \/ exists c, c ∈ [2; 6]%Z /\ (c - 2)%Z = 4%Z).
Proof.
  apply (X6_eligible_iff_assigned_and_requested demo_unassigned
           (fun c => (c - 2)%Z) [2; 6]%Z 4).
  - intros c Hc. rewrite !elem_of_cons, elem_of_nil in Hc.
    destruct_or!; subst; lia.
  - lia.
Defined.

(** *** The stored samples *)

Lemma emit_loop_sublist spl (l : list (nat * Z)) : forall st pre,
  sublist st.2 pre ->
  sublist (fold_left (emit_step spl) l st).2 (pre ++ l).
Proof.
  induction l as [|p l IH]; intros st pre Hsub; simpl.
  - by rewrite app_nil_r.
  - replace (pre ++ p :: l) with ((pre ++ [p]) ++ l)
      by (by rewrite <- app_assoc).
    apply IH. unfold emit_step. case_match; simpl.
    + by apply sublist_app.
    + by apply sublist_inserts_r.
Qed.

(** X7. The calls of [storeFeatures] for a file follow the shuffled
    candidate list: they are a subsequence of it (same order, nothing
    stored that is not a candidate), and no working-set point is stored
    twice. *)
Theorem X7_stored_samples_follow_the_shuffle
    LABEL_UNASSIGNED numLabels asprsToTrain shuffle maxSamples asprsClasses
    i ps :
  sampler_input_ok LABEL_UNASSIGNED numLabels ps ->
  (forall l, shuffle i l ≡ₚ l) ->
  let cands :=
    idxes (collect LABEL_UNASSIGNED numLabels asprsToTrain asprsClasses ps) in
  let stored :=
    sample_file LABEL_UNASSIGNED numLabels asprsToTrain shuffle maxSamples
      asprsClasses i ps in
  sublist stored (shuffle i cands)
  /\ NoDup stored.*1
  /\ forall p, p ∈ stored -> p ∈ cands.
Proof.
  intros Hok Hperm cands stored.
  assert (Hsub : sublist stored (shuffle i cands)).
  { subst stored. unfold sample_file, emit.
    apply (emit_loop_sublist _ _ (_, []) []). simpl. constructor. }
  destruct (collect_collected LABEL_UNASSIGNED numLabels asprsToTrain
              asprsClasses ps Hok) as (_ & Hnd & _).
  split_and!; [done | |].
  - apply (sublist_NoDup _ (shuffle i cands).*1).
    + by rewrite (Hperm cands).
    + by apply fmap_sublist.
  - intros p Hp. rewrite <- (Hperm cands).
    by apply (elem_of_sublist stored).
Qed.

Lemma X7_stored_samples_follow_the_shuffle_witness :
  let cands := idxes (collect demo_unassigned 2 (fun c => c) [] demo_labelled) in
  let stored :=
    sample_file demo_unassigned 2 (fun c => c) demo_shuffle 10 [] 0
      demo_labelled in
  sublist stored (demo_shuffle 0 cands)
  /\ NoDup stored.*1
  /\ forall p, p ∈ stored -> p ∈ cands.
Proof.
  apply (X7_stored_samples_follow_the_shuffle demo_unassigned 2 (fun c => c)
           demo_shuffle 10 [] 0 demo_labelled).
  - split_and!; [reflexivity | reflexivity | |].
    + intros j idx Hj. simpl.
      destruct j as [|[|[|[|[|j]]]]]; simpl in Hj; inversion Hj; lia.
    + intros j g Hj. unfold demo_unassigned.
      destruct j as [|[|[|[|[|j]]]]]; simpl in Hj; inversion Hj; lia.
  - intros l. unfold demo_shuffle. symmetry. apply Permutation_rev.
Defined.

(** *** The loop over the files *)

Section FilesMore.
Variable LABEL_UNASSIGNED : Z.
Variable numLabels : nat.
Variable asprsToTrain : Z -> Z.
Variable numFeatures : PointSet -> Q -> nat.
Variable shuffle : nat -> list (nat * Z) -> list (nat * Z).
Variable maxSamples : Z.
Variable asprsClasses : list Z.

Local Abbreviation file_step' :=
  (file_step LABEL_UNASSIGNED numLabels asprsToTrain numFeatures shuffle
     maxSamples asprsClasses).
Local Abbreviation files_loop' :=
  (files_loop LABEL_UNASSIGNED numLabels asprsToTrain numFeatures shuffle
     maxSamples asprsClasses).

Lemma scales_files_app l1 l2 :
  scales_files (l1 ++ l2) = scales_files l1 ++ scales_files l2.
Proof. unfold scales_files. apply omap_app. Qed.

Lemma scales_files_stores i (l : list (nat * Z)) :
  scales_files (map (fun p => StoreFeatures i p.1 p.2) l) = [].
Proof. induction l as [|p l IH]; [done|]. simpl. exact IH. Qed.

Lemma file_step_scales st i ps :
  scales_files (file_step' st i ps).2
  = scales_files st.2 ++ (if hasLabels ps then [i] else []).
Proof.
  unfold file_step. destruct (hasLabels ps); simpl; [|by rewrite app_nil_r].
  rewrite scales_files_app, scales_files_stores, app_nil_r.
  destruct (i =? 0); rewrite !scales_files_app; simpl;
    by rewrite ?app_nil_r.
Qed.

Lemma files_loop_scales files : forall i st,
  scales_files (files_loop' i files st).2
  = scales_files st.2 ++ labelled_from i files.
Proof.
  induction files as [|ps files IH]; intros i st; simpl.
  - by rewrite app_nil_r.
  - rewrite IH, file_step_scales.
    destruct (hasLabels ps); simpl; by rewrite <- ?app_assoc, ?app_nil_r.
Qed.

End FilesMore.

(** X8. A resolution given by the caller is respected: when
    [startResolution] differs from the sentinel [-1.0] on entry,
    [getTrainingData] never changes it and passes it to [computeScales]
    for every file, whatever the spacing of the files. *)
Theorem X8_given_resolution_is_kept
    LABEL_UNASSIGNED numLabels asprsToTrain numFeatures shuffle maxSamples
    asprsClasses files startResolution :
  ~ (startResolution == -1)%Q ->
  let result :=
    getTrainingData LABEL_UNASSIGNED numLabels asprsToTrain numFeatures
      shuffle maxSamples asprsClasses files startResolution in
  result.1 = startResolution
  /\ forall i res, ComputeScales i res ∈ result.2 -> res = startResolution.
Proof.
  intros Hne result.
  assert (Hb : Qeq_bool (startResolution, @nil call).1 (-1) = false).
  { simpl. destruct (Qeq_bool startResolution (-1)) eqn:E; [|done].
    apply Qeq_bool_iff in E. contradiction. }
  destruct (files_loop_keeps LABEL_UNASSIGNED numLabels asprsToTrain
              numFeatures shuffle maxSamples asprsClasses files 0
              (startResolution, []) Hb) as [H1 H2].
  split; [exact H1|]. intros i res Hin.
  destruct (H2 i res Hin) as [Hnil|Heq]; [|exact Heq].
  by apply elem_of_nil in Hnil.
Qed.

Lemma X8_given_resolution_is_kept_witness :
  let result :=
    getTrainingData demo_unassigned 2 (fun c => c) demo_numFeatures
      demo_shuffle 10 [] [demo_labelled; demo_unlabelled; demo_labelled']
      (1 # 10) in
  result.1 = (1 # 10)%Q
  /\ forall i res, ComputeScales i res ∈ result.2 -> res = (1 # 10)%Q.
Proof.
  apply (X8_given_resolution_is_kept demo_unassigned 2 (fun c => c)
           demo_numFeatures demo_shuffle 10 []
           [demo_labelled; demo_unlabelled; demo_labelled'] (1 # 10)).
  discriminate.
Defined.

(** X9. The calls of [init] that [getTrainingData] makes: exactly one,
    with the number of features of file 0 and the number of labels, when
    the file of index 0 has labels; none at all when it has no labels or
    when there is no file, whatever the later files are. *)
Theorem X9_init_once_iff_file_0_labelled
    LABEL_UNASSIGNED numLabels asprsToTrain numFeatures shuffle maxSamples
    asprsClasses files startResolution :
  filter is_init
    (getTrainingData LABEL_UNASSIGNED numLabels asprsToTrain numFeatures
       shuffle maxSamples asprsClasses files startResolution).2
  = match files with
    | ps :: _ =>
        if hasLabels ps
        then [Init (numFeatures ps
                      (if Qeq_bool startResolution (-1)
                       then spacing ps else startResolution)) numLabels]
        else []
    | [] => []
    end.
Proof. apply getTrainingData_init. Qed.

(** X10. [getTrainingData] calls [computeScales] exactly once for every
    file that has labels, in the order of the files, and never for a file
    without labels; with no labelled file it makes no call at all and
    leaves [startResolution] as it was. *)
Theorem X10_labelled_files_processed_in_order
    LABEL_UNASSIGNED numLabels asprsToTrain numFeatures shuffle maxSamples
    asprsClasses files startResolution :
  let result :=
    getTrainingData LABEL_UNASSIGNED numLabels asprsToTrain numFeatures
      shuffle maxSamples asprsClasses files startResolution in
  scales_files result.2 = labelled_from 0 files
  /\ (labelled_from 0 files = [] -> result = (startResolution, [])).
Proof.
  intros result. split.
  - subst result. unfold getTrainingData. by rewrite files_loop_scales.
  - intros Hnone. subst result. unfold getTrainingData.
    apply files_loop_skipped.
    revert Hnone. generalize 0. induction files as [|ps files IH];
      intros k Hnone; [constructor|].
    simpl in Hnone. destruct (hasLabels ps) eqn:E; [done|].
    constructor; [done | by apply (IH (S k))].
Qed.

End SamplerMore.

(** ** The Graph-Cut path: tiles, edges, unary costs *)

Section GraphCutMore.
Import GraphCut GraphCutRun.

Section Tiling.
Context {Point Bbox3 : Type}.
Variable contains : Bbox3 -> Point -> bool.
Variable bboxes : list Bbox3.

Lemma first_containing_from (bs : list Bbox3) : forall j p,
  (first_containing contains bs j p = 0
   /\ forall b, b ∈ bs -> contains b p = false)
  \/ (exists k b, first_containing contains bs j p = j + k
        /\ bs !! k = Some b /\ contains b p = true
        /\ forall k' b', k' < k -> bs !! k' = Some b' ->
             contains b' p = false).
Proof.
  induction bs as [|b0 bs IH]; intros j p; simpl.
  - left. split; [done|]. intros b Hb. by apply elem_of_nil in Hb.
  - destruct (contains b0 p) eqn:E.
    + right. exists 0, b0. split_and!; [lia | done | done |]. intros; lia.
    + destruct (IH (S j) p) as [[H0 Hall]|(k & b & Hr & Hb & Hc & Hfirst)].
      * left. split; [done|]. intros b Hb.
        apply elem_of_cons in Hb as [->|Hb]; auto.
      * right. exists (S k), b. split_and!; [lia | done | done |].
        intros [|k'] b' Hk' Hb'; simpl in Hb'; [congruence|].
        apply (Hfirst k' b'); [lia | done].
Qed.

(** X11. The tile of a point (lines 270-278) is the first box that
    contains it: the box at the returned position contains the point and
    no earlier box does. A point that no box contains is given tile 0. *)
Theorem X11_tile_is_first_containing_box (p : Point) :
  let idx := first_containing contains bboxes 0 p in
  (idx = 0 /\ forall b, b ∈ bboxes -> contains b p = false)
  \/ (exists b, bboxes !! idx = Some b /\ contains b p = true
        /\ forall k' b', k' < idx -> bboxes !! k' = Some b' ->
             contains b' p = false).
Proof.
  intros idx. subst idx.
  destruct (first_containing_from bboxes 0 p)
    as [H|(k & b & -> & Hb & Hc & Hfirst)]; [by left|].
  right. exists b. simpl. auto.
Qed.

Lemma first_containing_lt (p : Point) :
  bboxes <> [] -> first_containing contains bboxes 0 p < length bboxes.
Proof.
  intros Hne.
  destruct (first_containing_from bboxes 0 p)
    as [[-> _]|(k & b & -> & Hb & _)].
  - destruct bboxes; [done | simpl; lia].
  - apply lookup_lt_Some in Hb. lia.
Qed.

Lemma assign_loop_indices (ips : list (nat * Point)) :
  forall (st : list (list nat) * list (nat * nat)) sub,
  (fold_left (assign_point contains bboxes) ips st).1 !! sub
  = (fun tile =>
       tile ++ (filter
                  (fun ip => first_containing contains bboxes 0 ip.2 = sub)
                  ips).*1)
    <$> st.1 !! sub.
Proof.
  induction ips as [|ip ips IH]; intros st sub.
  - simpl. destruct (st.1 !! sub); simpl; [|done]. by rewrite app_nil_r.
  - cbn [fold_left]. rewrite IH. unfold assign_point. cbn [fst].
    rewrite filter_cons.
    destruct (decide (first_containing contains bboxes 0 ip.2 = sub))
      as [Heq|Hne].
    + rewrite Heq, list_lookup_alter_eq.
      destruct (st.1 !! sub); simpl; [|done].
      by rewrite <- app_assoc.
    + by rewrite list_lookup_alter_ne.
Qed.

Lemma filter_zip_seq (points pts : list Point) sub : forall k,
  (forall j, pts !! j = points !! (k + j)) ->
  (filter (fun ip : nat * Point =>
             first_containing contains bboxes 0 ip.2 = sub)
     (zip (seq k (length pts)) pts)).*1
  = filter (fun i => tileOf contains bboxes points i = sub)
      (seq k (length pts)).
Proof.
  induction pts as [|p pts IH]; intros k Hpts; [done|].
  simpl. rewrite !filter_cons. simpl.
  assert (Hk : tileOf contains bboxes points k
               = first_containing contains bboxes 0 p).
  { unfold tileOf. specialize (Hpts 0). simpl in Hpts.
    by rewrite Nat.add_0_r, <- Hpts in *. }
  rewrite Hk.
  assert (Hrest : (filter (fun ip : nat * Point =>
                     first_containing contains bboxes 0 ip.2 = sub)
                     (zip (seq (S k) (length pts)) pts)).*1
                  = filter (fun i => tileOf contains bboxes points i = sub)
                      (seq (S k) (length pts))).
  { apply IH. intros j. specialize (Hpts (S j)). simpl in Hpts.
    by replace (S k + j) with (k + S j) by lia. }
  case_decide; [rewrite fmap_cons; cbn [fst]; f_equal|]; exact Hrest.
Qed.

(** The list of tile [sub] after the assignment. *)
Lemma assign_points_indices (points : list Point) sub :
  sub < length bboxes ->
  (assign_points contains bboxes points).1 !! sub
  = Some (filter (fun i => tileOf contains bboxes points i = sub)
            (seq 0 (length points))).
Proof.
  intros Hsub. unfold assign_points.
  rewrite assign_loop_indices. simpl.
  rewrite lookup_replicate_2 by done. simpl. f_equal.
  by apply filter_zip_seq.
Qed.

Lemma assign_points_length (points : list Point) :
  length (assign_points contains bboxes points).1 = length bboxes.
Proof.
  unfold assign_points.
  generalize (zip (seq 0 (length points)) points). intros ips.
  rewrite <- (length_replicate (length bboxes) (@nil nat)) at 2.
  generalize (replicate (length bboxes) (@nil nat)).
  generalize (replicate (length points) (0, 0)).
  induction ips as [|ip ips IH]; intros iti ind; [done|].
  cbn [fold_left]. unfold assign_point at 2. rewrite IH.
  cbn [fst]. by rewrite length_alter.
Qed.

(** Every base point lies in exactly one tile list, and once. *)
Lemma assign_points_partition (points : list Point) :
  bboxes <> [] ->
  let indices := (assign_points contains bboxes points).1 in
  length indices = length bboxes
  /\ (forall sub, sub < length bboxes ->
        indices !! sub
        = Some (filter (fun i => tileOf contains bboxes points i = sub)
                  (seq 0 (length points))))
  /\ (forall i, i < length points ->
        exists tile,
          indices !! tileOf contains bboxes points i = Some tile
          /\ i ∈ tile /\ NoDup tile
          /\ forall sub tile', indices !! sub = Some tile' -> i ∈ tile' ->
               sub = tileOf contains bboxes points i).
Proof.
  intros Hne indices. subst indices. split_and!.
  - apply assign_points_length.
  - intros sub Hsub. by apply assign_points_indices.
  - intros i Hi.
    assert (Ht : tileOf contains bboxes points i < length bboxes).
    { unfold tileOf. destruct (points !! i).
      - by apply first_containing_lt.
      - destruct bboxes; [done | simpl; lia]. }
    eexists. split; [by apply assign_points_indices|]. split_and!.
    + apply list_elem_of_filter. split; [done|]. apply elem_of_seq. lia.
    + apply NoDup_filter, NoDup_seq.
    + intros sub tile' Hsub Hin.
      assert (sub < length bboxes).
      { apply lookup_lt_Some in Hsub. by rewrite assign_points_length in Hsub. }
      rewrite assign_points_indices in Hsub by done.
      injection Hsub as <-. apply list_elem_of_filter in Hin as [Heq _]. done.
Qed.


(** X12. The tiles partition the base points: [indices] has one list per
    box, the list of tile [sub] holds exactly the base points whose first
    containing box is [sub] (tile 0 also takes the points that no box
    contains), in increasing order, so every base point occurs in exactly
    one list and once. It takes at least one box. *)
Theorem X12_tiles_partition_the_points (points : list Point) :
  bboxes <> [] ->
  let indices := (assign_points contains bboxes points).1 in
  length indices = length bboxes
  /\ (forall sub, sub < length bboxes ->
        indices !! sub
        = Some (filter (fun i => tileOf contains bboxes points i = sub)
                  (seq 0 (length points))))
  /\ (forall i, i < length points ->
        exists tile,
          indices !! tileOf contains bboxes points i = Some tile
          /\ i ∈ tile /\ NoDup tile
          /\ forall sub tile', indices !! sub = Some tile' -> i ∈ tile' ->
               sub = tileOf contains bboxes points i).
Proof. apply assign_points_partition. Qed.

End Tiling.

Lemma X12_tiles_partition_the_points_witness :
  let indices := (assign_points demo_contains demo_bboxes demo_points).1 in
  length indices = length demo_bboxes
  /\ (forall sub, sub < length demo_bboxes ->
        indices !! sub
        = Some (filter
                  (fun i => tileOf demo_contains demo_bboxes demo_points i = sub)
                  (seq 0 (length demo_points))))
  /\ (forall i, i < length demo_points ->
        exists tile,
          indices !! tileOf demo_contains demo_bboxes demo_points i = Some tile
          /\ i ∈ tile /\ NoDup tile
          /\ forall sub tile', indices !! sub = Some tile' -> i ∈ tile' ->
               sub = tileOf demo_contains demo_bboxes demo_points i).
Proof.
  apply (X12_tiles_partition_the_points demo_contains demo_bboxes demo_points).
  discriminate.
Defined.



(** The per-point loop of lines 329-342 on the values it reads. *)
Lemma point_unary_spec (ln : Q -> Q) (values : list Q) :
  (point_unary ln values).2 = Inference.findBest values
  /\ length (point_unary ln values).1 = length values
  /\ forall k p, values !! k = Some p -> (0 < p)%Q ->
       (point_unary ln values).1 !! k = Some (Fin (- ln p)).
Proof.
  unfold point_unary. split_and!.
  - apply unary_loop_label.
  - by rewrite unary_loop_costs, length_map.
  - intros k p Hk Hp. rewrite unary_loop_costs, list_lookup_fmap, Hk.
    simpl. f_equal. unfold flog.
    destruct (Qeq_bool p 0) eqn:E0.
    { apply Qeq_bool_iff in E0. lra. }
    destruct (Qltb p 0) eqn:E1; [|done].
    apply Qltb_lt in E1. lra.
Qed.

(** X14. The per-point stage of the Graph-Cut path works on the
    probabilities converted to [float] (line 333). For the point at
    position [j] of a tile, the initial label [assignedLabel[j]] is the
    label that the search of the path without regularization gives to the
    converted probabilities, there is one unary cost per class, and the
    cost of a class whose converted probability [p] is positive is the
    finite value [-log p]. *)
Theorem X14_unary_costs_and_initial_label
    (features : list (nat -> Q)) (evaluateFunc : list Q -> list Q)
    (ln to_float : Q -> Q) (tile : list nat) (j s : nat) :
  tile !! j = Some s ->
  let floats :=
    map to_float (evaluateFunc (Inference.gather features s)) in
  exists costs label,
    tile_unary features evaluateFunc ln to_float tile !! j
    = Some (costs, label)
    /\ label = Inference.findBest floats
    /\ length costs = length floats
    /\ forall k p, floats !! k = Some p -> (0 < p)%Q ->
         costs !! k = Some (Fin (- ln p)).
Proof.
  intros Hj floats.
  destruct (point_unary_spec ln floats) as (Hlabel & Hlen & Hcost).
  exists (point_unary ln floats).1, (point_unary ln floats).2.
  split_and!; try done.
  unfold tile_unary. rewrite list_lookup_fmap, Hj. simpl.
  f_equal. apply surjective_pairing.
Qed.

Lemma X14_unary_costs_and_initial_label_witness :
  let floats :=
    map demo_to_float (demo_evaluate (Inference.gather demo_features 2)) in
  exists costs label,
    tile_unary demo_features demo_evaluate demo_ln demo_to_float [0; 2] !! 1
    = Some (costs, label)
    /\ label = Inference.findBest floats
    /\ length costs = length floats
    /\ forall k p, floats !! k = Some p -> (0 < p)%Q ->
         costs !! k = Some (Fin (- demo_ln p)).
Proof.
  apply (X14_unary_costs_and_initial_label demo_features demo_evaluate
           demo_ln demo_to_float [0; 2] 1 2).
  reflexivity.
Defined.

(** *** The write-back of the solver's labels *)

Section WriteBack.
Variable tile : list nat.

Local Abbreviation write_step :=
  (fun (labels : list Z) (ia : nat * nat) =>
     match tile !! ia.1 with
     | Some s => <[s := Z.of_nat ia.2]> labels
     | None => labels
     end).

Lemma write_loop_length (jas : list (nat * nat)) : forall labels,
  length (fold_left write_step jas labels) = length labels.
Proof.
  induction jas as [|ja jas IH]; intros labels; simpl; [done|].
  rewrite IH. case_match; [by rewrite length_insert | done].
Qed.

Lemma write_loop_other (jas : list (nat * nat)) s : forall labels,
  (forall ja, ja ∈ jas -> tile !! ja.1 <> Some s) ->
  fold_left write_step jas labels !! s = labels !! s.
Proof.
  induction jas as [|ja jas IH]; intros labels Hno; simpl; [done|].
  rewrite IH by (intros; apply Hno; by right).
  destruct (tile !! ja.1) as [s'|] eqn:E; [|done].
  apply list_lookup_insert_ne. intros ->. by apply (Hno ja); [left|].
Qed.

Lemma write_loop_at (jas : list (nat * nat)) j a s : forall labels,
  NoDup tile -> NoDup jas.*1 -> (j, a) ∈ jas -> tile !! j = Some s ->
  s < length labels ->
  fold_left write_step jas labels !! s = Some (Z.of_nat a).
Proof.
  induction jas as [|ja jas IH]; intros labels Htile Hnd Hin Hj Hs.
  { by apply elem_of_nil in Hin. }
  simpl in Hnd. apply NoDup_cons in Hnd as [Hnotin Hnd].
  apply elem_of_cons in Hin as [<-|Hin]; simpl.
  - rewrite Hj. rewrite write_loop_other.
    + by apply list_lookup_insert_eq.
    + intros ja Hja Hja'. apply Hnotin.
      rewrite (NoDup_lookup tile j ja.1 s Htile Hj Hja').
      apply list_elem_of_fmap. by exists ja.
  - apply IH; try done.
    case_match; [by rewrite length_insert | done].
Qed.

Lemma elem_of_zip_seq {A} (l : list A) i x :
  (i, x) ∈ zip (seq 0 (length l)) l <-> l !! i = Some x.
Proof.
  rewrite list_elem_of_lookup. split.
  - intros [k Hk]. apply lookup_zip_with_Some in Hk as (y & z & Heq & Hy & Hz).
    injection Heq as -> ->. apply lookup_seq in Hy as [-> _]. done.
  - intros Hx. exists i. apply lookup_zip_with_Some. exists i, x.
    split_and!; [done | | done]. apply lookup_seq.
    split; [done|]. by apply lookup_lt_Some in Hx.
Qed.

Lemma write_tile_length assigned labels :
  length (write_tile tile assigned labels) = length labels.
Proof. apply write_loop_length. Qed.

Lemma write_tile_other assigned labels s :
  s ∉ tile -> write_tile tile assigned labels !! s = labels !! s.
Proof.
  intros Hs. apply write_loop_other. intros ja _ Hja.
  apply Hs. apply list_elem_of_lookup. eauto.
Qed.

Lemma write_tile_at assigned labels j a s :
  NoDup tile -> tile !! j = Some s -> assigned !! j = Some a ->
  s < length labels ->
  write_tile tile assigned labels !! s = Some (Z.of_nat a).
Proof.
  intros Htile Hj Ha Hs. apply (write_loop_at _ j a s); try done.
  - rewrite fst_zip by (rewrite length_seq; lia). apply NoDup_seq.
  - by apply elem_of_zip_seq.
Qed.

End WriteBack.

Section RunFacts.
Context {Point Bbox3 : Type}.
Variable contains : Bbox3 -> Point -> bool.
Variable knnSearch : nat -> list nat.
Variable features : list (nat -> Q).
Variable evaluateFunc : list Q -> list Q.
Variable ln : Q -> Q.
Variable to_float : Q -> Q.
Variable numLabels : nat.
Variable alphaExpansionGraphcut :
  list ((nat * nat) * Q) -> list (list xfloat) -> list nat -> list nat.
Variable inputToIndices : list (nat * nat).

Local Abbreviation run_tile' :=
  (run_tile knnSearch features evaluateFunc ln to_float numLabels
     alphaExpansionGraphcut inputToIndices).
Local Abbreviation solve_tile' :=
  (solve_tile knnSearch features evaluateFunc ln to_float numLabels
     alphaExpansionGraphcut inputToIndices).

Lemma run_tile_length labels t : length (run_tile' labels t) = length labels.
Proof.
  unfold run_tile. destruct t.2; [done|]. apply write_tile_length.
Qed.

Lemma run_tile_other labels t s :
  s ∉ t.2 -> run_tile' labels t !! s = labels !! s.
Proof.
  intros Hs. unfold run_tile. destruct t.2 eqn:E; [done|].
  by apply write_tile_other.
Qed.

Lemma run_tile_at labels sub tile j a s :
  NoDup tile -> tile !! j = Some s -> solve_tile' sub tile !! j = Some a ->
  s < length labels ->
  run_tile' labels (sub, tile) !! s = Some (Z.of_nat a).
Proof.
  intros Hnd Hj Ha Hs. unfold run_tile. simpl.
  destruct tile as [|s0 tile'] eqn:E; [done|]. rewrite <- E in *.
  by apply (write_tile_at tile _ _ j).
Qed.

Lemma run_loop_length (ts : list (nat * list nat)) : forall labels,
  length (fold_left run_tile' ts labels) = length labels.
Proof.
  induction ts as [|t ts IH]; intros labels; simpl; [done|].
  by rewrite IH, run_tile_length.
Qed.

Lemma run_loop_at (ts : list (nat * list nat)) sub tile j a s :
  forall labels,
  NoDup tile -> tile !! j = Some s -> solve_tile' sub tile !! j = Some a ->
  s < length labels ->
  (forall t, t ∈ ts -> s ∈ t.2 -> t = (sub, tile)) ->
  labels !! s = Some (Z.of_nat a) \/ (sub, tile) ∈ ts ->
  fold_left run_tile' ts labels !! s = Some (Z.of_nat a).
Proof.
  induction ts as [|t ts IH]; intros labels Hnd Hj Ha Hs Huniq Hcase; simpl.
  { destruct Hcase as [H|H]; [done | by apply elem_of_nil in H]. }
  apply IH; try done.
  - by rewrite run_tile_length.
  - intros t' Ht'. apply Huniq. by right.
  - destruct (decide (s ∈ t.2)) as [Hin|Hnotin].
    + left. rewrite (Huniq t) by (done || by left).
      by apply (run_tile_at _ _ _ j).
    + rewrite run_tile_other by done.
      destruct Hcase as [H|H]; [by left|].
      apply elem_of_cons in H as [<-|H]; [|by right].
      destruct Hnotin. simpl. apply list_elem_of_lookup. eauto.
Qed.

End RunFacts.

(** The label of a base point after the loop over the tiles. *)
Lemma classify_graphcut_labels
    {Point Bbox3 : Type} (contains : Bbox3 -> Point -> bool)
    knnSearch features evaluateFunc ln to_float numLabels
    alphaExpansionGraphcut
    (bboxes : list Bbox3) (points : list Point) baseLabels :
  bboxes <> [] ->
  (forall edges matrix assigned,
     length (alphaExpansionGraphcut edges matrix assigned) = length assigned) ->
  let st := assign_points contains bboxes points in
  let result :=
    classify_graphcut contains knnSearch features evaluateFunc ln to_float
      numLabels alphaExpansionGraphcut bboxes points baseLabels in
  length result = length points
  /\ forall s, s < length points ->
       exists tile j a,
         st.1 !! tileOf contains bboxes points s = Some tile
         /\ tile !! j = Some s
         /\ solve_tile knnSearch features evaluateFunc ln to_float numLabels
              alphaExpansionGraphcut st.2
              (tileOf contains bboxes points s) tile !! j = Some a
         /\ result !! s = Some (Z.of_nat a).
Proof.
  intros Hne Hlen st result.
  destruct (assign_points_partition contains bboxes points Hne)
    as (Hl & Hind & Hpart).
  fold st in Hl, Hind, Hpart.
  split.
  - subst result. unfold classify_graphcut.
    by rewrite run_loop_length, length_resize.
  - intros s Hs.
    destruct (Hpart s Hs) as (tile & Htile & Hin & Hnd & Huniq).
    apply list_elem_of_lookup in Hin as [j Hj].
    assert (Hj' : j < length (solve_tile knnSearch features evaluateFunc ln
                    to_float numLabels alphaExpansionGraphcut st.2
                    (tileOf contains bboxes points s) tile)).
    { unfold solve_tile. rewrite Hlen, length_fmap.
      unfold tile_unary. rewrite length_map. by apply lookup_lt_Some in Hj. }
    apply lookup_lt_is_Some_2 in Hj' as [a Ha].
    exists tile, j, a. split_and!; [done..|].
    subst result. unfold classify_graphcut. fold st.
    apply run_loop_at
      with (sub := tileOf contains bboxes points s) (tile := tile) (j := j);
      try done.
    + by rewrite length_resize.
    + intros [sub tile'] Ht Hin. apply elem_of_zip_seq in Ht.
      simpl in Hin. pose proof (Huniq sub tile' Ht Hin) as ->.
      f_equal. congruence.
    + right. by apply elem_of_zip_seq.
Qed.


(** X15. The Graph-Cut path gives every base point a label, and exactly
    the one the solver leaves at the point's position in its tile:
    [base.labels] ends with one entry per base point, and for the base
    point [s] at position [j] of its tile the entry is the [j]-th label
    that [alphaExpansionGraphcut] leaves for that tile; the tiles
    processed before and after do not touch it. It takes at least one box
    and a solver that keeps the length of the label vector. *)
Theorem X15_graphcut_writes_the_solver_labels
    {Point Bbox3 : Type} (contains : Bbox3 -> Point -> bool)
    knnSearch features evaluateFunc ln to_float numLabels
    alphaExpansionGraphcut
    (bboxes : list Bbox3) (points : list Point) baseLabels :
  bboxes <> [] ->
  (forall edges matrix assigned,
     length (alphaExpansionGraphcut edges matrix assigned) = length assigned) ->
  let st := assign_points contains bboxes points in
  let result :=
    classify_graphcut contains knnSearch features evaluateFunc ln to_float
      numLabels alphaExpansionGraphcut bboxes points baseLabels in
  length result = length points
  /\ forall s, s < length points ->
       exists tile j a,
         st.1 !! tileOf contains bboxes points s = Some tile
         /\ tile !! j = Some s
         /\ solve_tile knnSearch features evaluateFunc ln to_float numLabels
              alphaExpansionGraphcut st.2
              (tileOf contains bboxes points s) tile !! j = Some a
         /\ result !! s = Some (Z.of_nat a).
Proof. apply classify_graphcut_labels. Qed.

Lemma X15_graphcut_writes_the_solver_labels_witness :
  let st := assign_points demo_contains demo_bboxes demo_points in
  let result :=
    classify_graphcut demo_contains demo_knn demo_features demo_evaluate
      demo_ln demo_to_float 2 demo_solver demo_bboxes demo_points [] in
  length result = length demo_points
  /\ forall s, s < length demo_points ->
       exists tile j a,
         st.1 !! tileOf demo_contains demo_bboxes demo_points s = Some tile
         /\ tile !! j = Some s
         /\ solve_tile demo_knn demo_features demo_evaluate demo_ln
              demo_to_float 2
              demo_solver st.2
              (tileOf demo_contains demo_bboxes demo_points s) tile !! j
            = Some a
         /\ result !! s = Some (Z.of_nat a).
Proof.
  apply (X15_graphcut_writes_the_solver_labels demo_contains demo_knn
           demo_features demo_evaluate demo_ln demo_to_float 2 demo_solver
           demo_bboxes demo_points []).
  - discriminate.
  - reflexivity.
Defined.

(** The path without regularization reads the evaluator's results only. *)
Lemma classify_none_ext features (e1 e2 : list Q -> list Q) n baseLabels :
  (forall ft, e1 ft = e2 ft) ->
  Inference.classify_none features e1 n baseLabels
  = Inference.classify_none features e2 n baseLabels.
Proof.
  intros Hext. unfold Inference.classify_none.
  generalize (resize n 0%Z baseLabels). generalize (seq 0 n).
  intros idxs. induction idxs as [|i idxs IH]; intros l; simpl; [done|].
  rewrite IH. f_equal. unfold Inference.classify_point.
  by rewrite Hext.
Qed.

(** X16. When the solver leaves the initial labels as they are, the
    Graph-Cut path computes the [base.labels] that the path without
    regularization computes from the probabilities converted to [float]
    (line 333): tiling, per-tile evaluation and write-back lose and reorder
    nothing. Where the conversion changes no value that the evaluator
    writes ([T] is [float]) these are the labels of the path without
    regularization itself. It takes at least one box. *)
Theorem X16_graphcut_with_idle_solver_is_none
    {Point Bbox3 : Type} (contains : Bbox3 -> Point -> bool)
    knnSearch features evaluateFunc ln to_float numLabels
    alphaExpansionGraphcut
    (bboxes : list Bbox3) (points : list Point) baseLabels :
  bboxes <> [] ->
  (forall edges matrix assigned,
     alphaExpansionGraphcut edges matrix assigned = assigned) ->
  let result :=
    classify_graphcut contains knnSearch features evaluateFunc ln to_float
      numLabels alphaExpansionGraphcut bboxes points baseLabels in
  result
  = Inference.classify_none features
      (fun ft => map to_float (evaluateFunc ft)) (length points) baseLabels
  /\ ((forall ft v, v ∈ evaluateFunc ft -> to_float v = v) ->
      result
      = Inference.classify_none features evaluateFunc (length points)
          baseLabels).
Proof.
  intros Hne Hidle result.
  assert (Hgen : result
                 = Inference.classify_none features
                     (fun ft => map to_float (evaluateFunc ft))
                     (length points) baseLabels).
  { subst result.
    destruct (classify_graphcut_labels contains knnSearch features
                evaluateFunc ln to_float numLabels alphaExpansionGraphcut
                bboxes points baseLabels Hne) as [Hlen Hlab].
    { intros. by rewrite Hidle. }
    apply list_eq. intros s.
    destruct (decide (s < length points)) as [Hs|Hs].
    - destruct (Hlab s Hs) as (tile & j & a & _ & Hj & Ha & ->).
      unfold Inference.classify_none.
      rewrite classify_none_lookup by (rewrite ?length_resize; done).
      do 2 f_equal.
      unfold solve_tile in Ha. rewrite Hidle in Ha.
      unfold tile_unary in Ha.
      rewrite !list_lookup_fmap, Hj in Ha. simpl in Ha.
      injection Ha as <-. unfold point_unary. apply unary_loop_label.
    - rewrite !(proj2 (lookup_ge_None _ _)); [done | |].
      + unfold Inference.classify_none.
        rewrite classify_none_length, length_resize. lia.
      + lia. }
  split; [done|]. intros Hid. rewrite Hgen.
  apply classify_none_ext. intros ft.
  apply map_fixes_iff. intros v Hv. by apply (Hid ft).
Qed.

Lemma X16_graphcut_with_idle_solver_is_none_witness :
  let result :=
    classify_graphcut demo_contains demo_knn demo_features demo_evaluate
      demo_ln demo_to_float 2 demo_solver demo_bboxes demo_points [] in
  result
  = Inference.classify_none demo_features
      (fun ft => map demo_to_float (demo_evaluate ft))
      (length demo_points) []
  /\ ((forall ft v, v ∈ demo_evaluate ft -> demo_to_float v = v) ->
      result
      = Inference.classify_none demo_features demo_evaluate
          (length demo_points) []).
Proof.
  apply (X16_graphcut_with_idle_solver_is_none demo_contains demo_knn
           demo_features demo_evaluate demo_ln demo_to_float 2 demo_solver
           demo_bboxes demo_points []).
  - discriminate.
  - reflexivity.
Defined.

End GraphCutMore.

(** ** The Local-Smooth path *)

Section SmoothFacts.
Import Inference Smooth.

Lemma smooth_loop_index mean k : forall j b v,
  smooth_loop mean k j b v = b
  \/ j <= smooth_loop mean k j b v < j + length mean.
Proof.
  induction mean as [|m rest IH]; intros j b v; simpl; [by left|].
  destruct (xltb v (fdiv m k)).
  - right. destruct (IH (S j) j (fdiv m k)) as [->|H]; lia.
  - destruct (IH (S j) b v) as [H|H]; [by left | right; lia].
Qed.

(** Without a match every mean is NaN and no class beats the initial one. *)
Lemma smooth_loop_no_match mean : forall j b v,
  Forall (fun m => m = 0%Q) mean -> smooth_loop mean 0 j b v = b.
Proof.
  induction mean as [|m rest IH]; intros j b v Hall; simpl; [done|].
  apply Forall_cons in Hall as [-> Hall].
  replace (xltb v (fdiv 0 0)) with false by (by destruct v).
  by apply IH.
Qed.

Lemma Qdiv_lt_pos (a b c : Q) : (0 < c)%Q -> (a / c < b / c)%Q <-> (a < b)%Q.
Proof.
  intros Hc. unfold Qdiv. apply Qmult_lt_r. by apply Qinv_lt_0_compat.
Qed.

Lemma Qltb_proper (a a' b b' : Q) :
  (a == a')%Q -> (b == b')%Q -> Qltb a b = Qltb a' b'.
Proof.
  intros Ha Hb. destruct (Qltb a b) eqn:E, (Qltb a' b') eqn:E'; try done.
  - apply Qltb_lt in E. apply Qltb_ge in E'. lra.
  - apply Qltb_ge in E. apply Qltb_lt in E'. lra.
Qed.

(** With at least one match, dividing by the number of matches does not
    change which class wins. *)
Lemma smooth_loop_best mean (k : nat) : 0 < k -> forall j b v v',
  (v' == v / inject_Z (Z.of_nat k))%Q ->
  smooth_loop mean k j b (Fin v') = (best_loop mean j b v).1.
Proof.
  intros Hk.
  assert (Hc : (0 < inject_Z (Z.of_nat k))%Q).
  { replace 0%Q with (inject_Z 0) by done. rewrite <- Zlt_Qlt. lia. }
  induction mean as [|m rest IH]; intros j b v v' Hv; simpl; [done|].
  unfold fdiv. replace (k =? 0) with false by (symmetry; apply Nat.eqb_neq; lia).
  simpl.
  assert (Heq : Qltb v' (m / inject_Z (Z.of_nat k)) = Qltb v m).
  { rewrite (Qltb_proper v' (v / inject_Z (Z.of_nat k)) _ _ Hv (Qeq_refl _)).
    destruct (Qltb v m) eqn:E.
    - apply Qltb_lt. apply Qdiv_lt_pos; [done|]. by apply Qltb_lt.
    - apply Qltb_ge. apply Qltb_ge in E.
      apply Qnot_lt_le. intros H. apply Qdiv_lt_pos in H; [lra | done]. }
  rewrite Heq. destruct (Qltb v m); apply IH; [reflexivity | done].
Qed.

(** The search only looks at the values up to equality of rationals. *)
Lemma best_loop_Qeq l : forall l' j b v v',
  Forall2 Qeq l l' -> (v == v')%Q ->
  (best_loop l j b v).1 = (best_loop l' j b v').1.
Proof.
  induction l as [|p l IH]; intros l' j b v v' Hl Hv.
  - by apply Forall2_nil_inv_l in Hl as ->.
  - apply Forall2_cons_inv_l in Hl as (p' & l'' & Hp & Hl & ->). simpl.
    rewrite (Qltb_proper v v' p p' Hv Hp).
    destruct (Qltb v' p'); by apply IH.
Qed.

Lemma sum_fold_ext (l : list nat) (f g : nat -> Q) :
  (forall m, m ∈ l -> f m = g m) ->
  forall acc,
    fold_left (fun m n => (m + f n)%Q) l acc
    = fold_left (fun m n => (m + g n)%Q) l acc.
Proof.
  induction l as [|n l IH]; intros Hfg acc; [done|]. simpl.
  rewrite (Hfg n) by (by left). apply IH. intros m Hm. apply Hfg. by right.
Qed.

Section Matrix.
Variable features : list (nat -> Q).
Variable evaluateFunc : list Q -> list Q.
Variable numLabels : nat.
Variable radiusSearch : nat -> list nat.

Local Abbreviation store_probs' := (store_probs features evaluateFunc).

Lemma store_probs_lookup values i j :
  store_probs' values i !! j
  = (fun row =>
       <[i := default 0%Q (evaluateFunc (gather features i) !! j)]> row)
    <$> values !! j.
Proof. unfold store_probs. by rewrite list_lookup_imap. Qed.

Lemma store_loop_lookup n : forall values j row m,
  values !! j = Some row -> m < length row ->
  exists row',
    fold_left store_probs' (seq 0 n) values !! j = Some row'
    /\ length row' = length row
    /\ row' !! m
       = if decide (m < n)
         then Some (default 0%Q (evaluateFunc (gather features m) !! j))
         else row !! m.
Proof.
  induction n as [|n IH]; intros values j row m Hrow Hm.
  - exists row. split_and!; [done..|]. by rewrite decide_False by lia.
  - rewrite seq_S, fold_left_app. simpl.
    destruct (IH values j row m Hrow Hm) as (row1 & H1 & Hlen1 & Hm1).
    rewrite store_probs_lookup, H1. simpl. eexists. split_and!; [done| |].
    + by rewrite length_insert.
    + destruct (decide (m = n)) as [->|Hne].
      * rewrite list_lookup_insert_eq by lia. by rewrite decide_True by lia.
      * rewrite list_lookup_insert_ne by done. rewrite Hm1.
        repeat case_decide; done || lia.
Qed.

Lemma all_values_length baseCount :
  length (all_values features evaluateFunc numLabels baseCount) = numLabels.
Proof.
  unfold all_values. generalize (seq 0 baseCount). intros l.
  rewrite <- (length_replicate numLabels (replicate baseCount (-1)%Q)) at 2.
  generalize (replicate numLabels (replicate baseCount (-1)%Q)).
  induction l as [|i l IH]; intros values; simpl; [done|].
  rewrite IH. unfold store_probs. by rewrite length_imap.
Qed.

(** After the first pass, row [j] of [values] holds at [m] the
    probability of class [j] at base point [m]. *)
Lemma all_values_lookup baseCount j m :
  j < numLabels -> m < baseCount ->
  exists row,
    all_values features evaluateFunc numLabels baseCount !! j = Some row
    /\ row !! m = Some (default 0%Q (evaluateFunc (gather features m) !! j)).
Proof.
  intros Hj Hm. unfold all_values.
  destruct (store_loop_lookup baseCount
              (replicate numLabels (replicate baseCount (-1)%Q)) j
              (replicate baseCount (-1)%Q) m) as (row & H1 & _ & H2).
  - by apply lookup_replicate_2.
  - by rewrite length_replicate.
  - exists row. split; [done|]. by rewrite H2, decide_True.
Qed.

Lemma mean_sums_neighbour_sums baseCount i :
  (forall n, n ∈ radiusSearch i -> n < baseCount) ->
  mean_sums radiusSearch
    (all_values features evaluateFunc numLabels baseCount) i
  = neighbour_sums features evaluateFunc numLabels radiusSearch i.
Proof.
  intros Hin. apply list_eq. intros j.
  unfold mean_sums, neighbour_sums. rewrite !list_lookup_fmap.
  destruct (decide (j < numLabels)) as [Hj|Hj].
  - rewrite lookup_seq_lt by done. simpl.
    assert (Hrows : exists row,
      all_values features evaluateFunc numLabels baseCount !! j = Some row
      /\ forall m, m ∈ radiusSearch i ->
           row !! m
           = Some (default 0%Q (evaluateFunc (gather features m) !! j))).
    { destruct baseCount as [|b].
      - destruct (lookup_lt_is_Some_2
                    (all_values features evaluateFunc numLabels 0) j)
          as [row Hrow]; [by rewrite all_values_length|].
        exists row. split; [done|]. intros m Hm. specialize (Hin m Hm). lia.
      - destruct (all_values_lookup (S b) j 0) as (row & Hrow & _);
          [done | lia|].
        exists row. split; [done|]. intros m Hm.
        destruct (all_values_lookup (S b) j m Hj (Hin m Hm))
          as (row' & Hrow' & Hm').
        congruence. }
    destruct Hrows as (row & -> & Hrow). simpl. f_equal.
    unfold neighbour_sum. apply sum_fold_ext.
    intros m Hm. by rewrite (Hrow m Hm).
  - rewrite lookup_seq_ge by lia.
    rewrite (proj2 (lookup_ge_None _ _)); [done|].
    rewrite all_values_length. lia.
Qed.

Lemma smooth_fold_length values idxs : forall labels,
  length (fold_left (smooth_point radiusSearch values) idxs labels)
  = length labels.
Proof.
  induction idxs as [|i idxs IH]; intros labels; simpl; [done|].
  rewrite IH. unfold smooth_point. by rewrite length_insert.
Qed.

Lemma smooth_fold_lookup values n : forall labels i,
  n <= length labels -> i < n ->
  fold_left (smooth_point radiusSearch values) (seq 0 n) labels !! i
  = Some (Z.of_nat (smooth_loop (mean_sums radiusSearch values i)
                      (length (radiusSearch i)) 0 0 (Fin 0))).
Proof.
  induction n as [|n IH]; intros labels i Hn Hi; [lia|].
  rewrite seq_S, fold_left_app. simpl. unfold smooth_point at 1.
  destruct (decide (i = n)) as [->|Hne].
  - apply list_lookup_insert_eq. rewrite smooth_fold_length. lia.
  - rewrite list_lookup_insert_ne by done. apply IH; lia.
Qed.

Lemma classify_smooth_lookup baseCount baseLabels i :
  i < baseCount ->
  classify_smooth features evaluateFunc numLabels radiusSearch
    baseCount baseLabels !! i
  = Some (Z.of_nat
            (smooth_loop
               (mean_sums radiusSearch
                  (all_values features evaluateFunc numLabels baseCount) i)
               (length (radiusSearch i)) 0 0 (Fin 0))).
Proof.
  intros Hi. unfold classify_smooth.
  apply smooth_fold_lookup; [by rewrite length_resize | done].
Qed.

End Matrix.

(** X17. The Local-Smooth path leaves one label per base point, and every
    label is a class index below the number of labels, whatever the
    evaluator and the radius search return. It takes at least one
    label. *)
Theorem X17_smooth_labels_in_range
    features evaluateFunc numLabels radiusSearch baseCount baseLabels :
  0 < numLabels ->
  let result :=
    classify_smooth features evaluateFunc numLabels radiusSearch
      baseCount baseLabels in
  length result = baseCount
  /\ forall i l, result !! i = Some l -> (0 <= l < Z.of_nat numLabels)%Z.
Proof.
  intros HL result. subst result. split.
  - unfold classify_smooth. by rewrite smooth_fold_length, length_resize.
  - intros i l Hl.
    assert (Hi : i < baseCount).
    { apply lookup_lt_Some in Hl. unfold classify_smooth in Hl.
      by rewrite smooth_fold_length, length_resize in Hl. }
    rewrite classify_smooth_lookup in Hl by done. injection Hl as <-.
    match goal with |- context [smooth_loop ?m ?k 0 0 ?v] =>
      destruct (smooth_loop_index m k 0 0 v) as [->|H];
      [lia | assert (length m = numLabels) as Hm] end.
    { unfold mean_sums. by rewrite length_map, all_values_length. }
    lia.
Qed.

Lemma X17_smooth_labels_in_range_witness :
  let result :=
    classify_smooth demo_features demo_evaluate 3 demo_radius 4 [] in
  length result = 4
  /\ forall i l, result !! i = Some l -> (0 <= l < Z.of_nat 3)%Z.
Proof.
  apply (X17_smooth_labels_in_range demo_features demo_evaluate 3
           demo_radius 4 []).
  lia.
Defined.

(** X19. Local-Smooth at a point for which the radius search returns no
    match: every mean is 0/0, no comparison succeeds, and the point gets
    class 0. *)
Theorem X19_smooth_without_match_gives_class_0
    features evaluateFunc numLabels radiusSearch baseCount baseLabels i :
  i < baseCount ->
  radiusSearch i = [] ->
  classify_smooth features evaluateFunc numLabels radiusSearch
    baseCount baseLabels !! i = Some 0%Z.
Proof.
  intros Hi Hnone. rewrite classify_smooth_lookup by done.
  rewrite Hnone. simpl. rewrite smooth_loop_no_match; [done|].
  unfold mean_sums. rewrite Hnone. simpl.
  apply Forall_forall. intros m Hm.
  apply list_elem_of_fmap in Hm as (row & -> & _). done.
Qed.

Lemma X19_smooth_without_match_gives_class_0_witness :
  classify_smooth demo_features demo_evaluate 3 demo_radius 4 [] !! 3
  = Some 0%Z.
Proof.
  apply (X19_smooth_without_match_gives_class_0 demo_features demo_evaluate
           3 demo_radius 4 [] 3).
  - lia.
  - reflexivity.
Defined.

(** X20. When the radius search returns, for every base point, that
    point alone, Local-Smooth computes the same [base.labels] as the path
    without regularization. It takes an evaluator that fills one entry
    per label. *)
Theorem X20_smooth_with_self_matches_is_none
    features evaluateFunc numLabels radiusSearch baseCount baseLabels :
  (forall i, i < baseCount -> radiusSearch i = [i]) ->
  (forall i, i < baseCount ->
     length (evaluateFunc (gather features i)) = numLabels) ->
  classify_smooth features evaluateFunc numLabels radiusSearch
    baseCount baseLabels
  = classify_none features evaluateFunc baseCount baseLabels.
Proof.
  intros Hself Hlen. apply list_eq. intros i.
  destruct (decide (i < baseCount)) as [Hi|Hi].
  - rewrite classify_smooth_lookup by done.
    unfold classify_none.
    rewrite classify_none_lookup by (rewrite ?length_resize; done).
    rewrite mean_sums_neighbour_sums
      by (intros n Hn; rewrite (Hself i Hi) in Hn;
          apply list_elem_of_singleton in Hn; lia).
    rewrite (Hself i Hi). simpl. do 2 f_equal.
    rewrite (smooth_loop_best _ 1 ltac:(lia) 0 0 0%Q 0%Q)
      by (unfold Qdiv; lra).
    unfold findBest. apply best_loop_Qeq; [|reflexivity].
    apply Forall2_same_length_lookup. split.
    + unfold neighbour_sums. by rewrite length_map, length_seq, Hlen.
    + intros j x y Hx Hy. unfold neighbour_sums in Hx.
      rewrite list_lookup_fmap in Hx.
      destruct (seq 0 numLabels !! j) as [j'|] eqn:E; [|done].
      apply lookup_seq in E as [-> _]. simpl in Hx. injection Hx as <-.
      unfold neighbour_sum. rewrite (Hself i Hi). simpl. rewrite Hy. simpl.
      lra.
  - rewrite !(proj2 (lookup_ge_None _ _)); [done | |].
    + unfold classify_none. rewrite classify_none_length, length_resize. lia.
    + unfold classify_smooth. rewrite smooth_fold_length, length_resize. lia.
Qed.

Lemma X20_smooth_with_self_matches_is_none_witness :
  classify_smooth demo_features demo_evaluate 3 (fun i => [i]) 2 []
  = classify_none demo_features demo_evaluate 2 [].
Proof.
  apply (X20_smooth_with_self_matches_is_none demo_features demo_evaluate 3
           (fun i => [i]) 2 []).
  - reflexivity.
  - intros i Hi. destruct i as [|[|i]]; [reflexivity | reflexivity | lia].
Defined.

End SmoothFacts.

(** ** The Gini split: overflow and output counts *)

Section GiniMore.
Import Gini GiniSpec.

Lemma u64_small n : (0 <= n < 2 ^ 64)%Z -> u64 n = n.
Proof. intros H. unfold u64. by apply Z.mod_small. Qed.

Lemma u64_range n : (0 <= u64 n < 2 ^ 64)%Z.
Proof. unfold u64. apply Z.mod_pos_bound. lia. Qed.

Lemma sum_squares_nonneg l : (0 <= sum_squares l)%Z.
Proof. induction l as [|f l IH]; simpl; [lia | nia]. Qed.

Lemma sum_squares_le_square l :
  Forall (fun f => (0 <= f)%Z) l -> (sum_squares l <= sumZ l * sumZ l)%Z.
Proof.
  induction 1 as [|f l Hf Hl IH]; simpl; [lia|].
  assert (0 <= sumZ l)%Z.
  { clear IH. induction Hl; simpl; lia. }
  nia.
Qed.

Lemma square_term_fold_exact l : forall acc,
  (0 <= acc)%Z -> (acc + sum_squares l < 2 ^ 64)%Z ->
  fold_left (fun acc f => u64 (acc + f * f)) l acc
  = (acc + sum_squares l)%Z.
Proof.
  induction l as [|f l IH]; intros acc Hacc Hlt; simpl in *; [lia|].
  pose proof (sum_squares_nonneg l).
  rewrite u64_small by nia. rewrite IH; [lia | nia | lia].
Qed.

(** X21. [gini_square_term] is the sum of the squares of the frequencies
    as long as the frequencies are non-negative and add up to less than
    2^32; the 64-bit accumulator does not wrap then. *)
Theorem X21_square_term_is_exact_below_2_32 (frequencies : list Z) :
  Forall (fun f => (0 <= f)%Z) frequencies ->
  (sumZ frequencies < 2 ^ 32)%Z ->
  gini_square_term frequencies = sum_squares frequencies.
Proof.
  intros Hpos Hsum. unfold gini_square_term.
  rewrite square_term_fold_exact; [lia | lia |].
  pose proof (sum_squares_le_square _ Hpos).
  assert (0 <= sumZ frequencies)%Z.
  { clear -Hpos. induction Hpos; simpl; lia. }
  nia.
Qed.

Lemma X21_square_term_is_exact_below_2_32_witness :
  gini_square_term [3; 0; 70000]%Z = sum_squares [3; 0; 70000]%Z.
Proof.
  apply (X21_square_term_is_exact_below_2_32 [3; 0; 70000]%Z).
  - repeat constructor; lia.
  - simpl. lia.
Defined.

(** *** Histograms *)

Lemma alter_at_comm {A} (f : A -> A) (c c' : Z) (v : list A) :
  alter_at f c (alter_at f c' v) = alter_at f c' (alter_at f c v).
Proof.
  unfold alter_at. destruct (0 <=? c)%Z, (0 <=? c')%Z; try done.
  destruct (decide (Z.to_nat c = Z.to_nat c')) as [->|Hne]; [done|].
  by apply list_alter_alter_ne.
Qed.

Lemma histogram_fold (l : list (Q * Z)) : forall c v,
  fold_left (fun v p => alter_at (fun c => u64 (c + 1)) p.2 v) l
    (alter_at (fun c => u64 (c + 1)) c v)
  = alter_at (fun c => u64 (c + 1)) c
      (fold_left (fun v p => alter_at (fun c => u64 (c + 1)) p.2 v) l v).
Proof.
  induction l as [|p l IH]; intros c v; simpl; [done|].
  by rewrite alter_at_comm, IH.
Qed.

Lemma histogram_cons n p l :
  histogram n (p :: l) = alter_at (fun c => u64 (c + 1)) p.2 (histogram n l).
Proof. unfold histogram. simpl. apply histogram_fold. Qed.

Lemma histogram_snoc n l p :
  histogram n (l ++ [p]) = alter_at (fun c => u64 (c + 1)) p.2 (histogram n l).
Proof. unfold histogram. by rewrite fold_left_app. Qed.

Lemma histogram_range n l :
  Forall (fun c => (0 <= c < 2 ^ 64)%Z) (histogram n l).
Proof.
  induction l as [|p l IH] using rev_ind.
  - unfold histogram. simpl. apply Forall_replicate. lia.
  - rewrite histogram_snoc. unfold alter_at. case_match; [|done].
    apply Forall_alter; [done|]. intros. apply u64_range.
Qed.

Lemma alter_at_dec_inc (c : Z) (v : list Z) :
  Forall (fun x => (0 <= x < 2 ^ 64)%Z) v ->
  alter_at (fun x => u64 (x - 1)) c (alter_at (fun x => u64 (x + 1)) c v) = v.
Proof.
  intros Hv. unfold alter_at. destruct (0 <=? c)%Z; [|done].
  rewrite list_alter_alter_eq. apply list_eq. intros i.
  destruct (decide (i = Z.to_nat c)) as [->|Hne].
  - rewrite list_lookup_alter_eq.
    destruct (v !! Z.to_nat c) as [x|] eqn:E; [|done]. simpl. f_equal.
    assert (Hx : (0 <= x < 2 ^ 64)%Z).
    { rewrite Forall_forall in Hv. apply Hv. apply list_elem_of_lookup. eauto. }
    unfold u64.
    rewrite Zminus_mod_idemp_l. replace (x + 1 - 1)%Z with x by lia.
    by apply Z.mod_small.
  - by rewrite list_lookup_alter_ne.
Qed.

Lemma histogram_perm n l l' : l ≡ₚ l' -> histogram n l = histogram n l'.
Proof.
  induction 1 as [|x l l' _ IH|x y l|l l' l'' _ IH1 _ IH2].
  - done.
  - by rewrite !histogram_cons, IH.
  - rewrite !histogram_cons. apply alter_at_comm.
  - by rewrite IH1.
Qed.

Lemma histogram_lookup n l c :
  c < n -> (Z.of_nat (length l) < 2 ^ 64)%Z ->
  histogram n l !! c = Some (samples_of_class c l).
Proof.
  intros Hc. unfold samples_of_class.
  induction l as [|p l IH] using rev_ind; intros Hlen.
  - unfold histogram. simpl. by apply lookup_replicate_2.
  - rewrite length_app in Hlen. simpl in Hlen.
    specialize (IH ltac:(lia)).
    pose proof (length_filter (fun p : Q * Z => p.2 = Z.of_nat c) l).
    rewrite histogram_snoc, filter_app, length_app. unfold alter_at.
    destruct (decide (p.2 = Z.of_nat c)) as [Heq|Hne].
    + rewrite (filter_cons_True _ p []) by done. rewrite Heq.
      replace (0 <=? Z.of_nat c)%Z with true by (symmetry; apply Z.leb_le; lia).
      rewrite Nat2Z.id, list_lookup_alter_eq, IH. simpl. f_equal.
      rewrite u64_small by lia. lia.
    + rewrite (filter_cons_False _ p []) by done. simpl.
      rewrite Nat.add_0_r. destruct (0 <=? p.2)%Z eqn:E; [|done].
      apply Z.leb_le in E. rewrite list_lookup_alter_ne by lia. done.
Qed.

Section ScanCounts.
Context {RandomGen : Type}.
Variable fraction_dist : RandomGen -> Q * RandomGen.
Variable n_classes : nat.

Lemma scan_step_classes prev cur (st : scan_state RandomGen) :
  classes_l (scan_step fraction_dist prev cur st)
  = alter_at (fun c => u64 (c + 1)) prev.2 (classes_l st)
  /\ classes_r (scan_step fraction_dist prev cur st)
     = alter_at (fun c => u64 (c - 1)) prev.2 (classes_r st).
Proof.
  unfold scan_step, try_split. destruct (Qeq_bool prev.1 cur.1); [done|].
  cbn [classes_l classes_r n_l n_r best_loss best_thresh gen].
  by destruct (xltb _ _).
Qed.

Lemma scan_classes rest : forall pre prev (st : scan_state RandomGen),
  classes_l st = histogram n_classes pre ->
  classes_r st = histogram n_classes (prev :: rest) ->
  exists pre' last,
    pre ++ prev :: rest = pre' ++ [last]
    /\ classes_l (scan fraction_dist prev rest st) = histogram n_classes pre'
    /\ classes_r (scan fraction_dist prev rest st)
       = histogram n_classes [last].
Proof.
  induction rest as [|cur rest IH]; intros pre prev st Hl Hr; simpl.
  - by exists pre, prev.
  - destruct (scan_step_classes prev cur st) as [Hl1 Hr1].
    destruct (IH (pre ++ [prev]) cur (scan_step fraction_dist prev cur st))
      as (pre' & last & Hs & Hl' & Hr').
    + by rewrite Hl1, Hl, histogram_snoc.
    + rewrite Hr1, Hr, (histogram_cons _ prev).
      apply alter_at_dec_inc, histogram_range.
    + exists pre', last. by rewrite <- app_assoc in Hs.
Qed.

End ScanCounts.

(** X23. On return the two output vectors do not describe the split that
    was chosen: [classes_l[c]] is the number of samples of class [c] among
    all the data but the last sample in sorted order, and [classes_r[c]]
    counts the last sorted sample alone (both are all zero for empty data),
    for every class [c < n_classes], the classes of the samples being
    below [n_classes] and the data shorter than 2^64. *)
Theorem X23_output_counts_split_before_last_sample
    {RandomGen : Type} (fraction_dist : RandomGen -> Q * RandomGen)
    n_classes data_points g c :
  c < n_classes ->
  classes_in_bounds n_classes data_points ->
  (Z.of_nat (length data_points) < 2 ^ 64)%Z ->
  let sorted := merge_sort pair_le data_points in
  let result :=
    determine_best_threshold fraction_dist n_classes data_points g in
  classes_l result !! c = Some (samples_of_class c (removelast sorted))
  /\ classes_r result !! c
     = Some (samples_of_class c (drop (length sorted - 1) sorted)).
Proof.
  intros Hc _ Hlen sorted result. subst sorted result.
  unfold determine_best_threshold.
  pose proof (merge_sort_Permutation pair_le data_points) as Hperm.
  destruct (merge_sort pair_le data_points) as [|first rest] eqn:Es.
  - apply Permutation_nil in Hperm as ->.
    simpl. unfold samples_of_class. simpl.
    split; by apply lookup_replicate_2.
  - destruct (scan_classes fraction_dist n_classes rest [] first
                (initial n_classes data_points g))
      as (pre & last & Hs & Hl & Hr).
    + done.
    + unfold initial. cbn [classes_r].
      fold (histogram n_classes data_points). by apply histogram_perm.
    + simpl in Hs. rewrite Hl, Hr, Hs.
      assert (Hlen' : length (pre ++ [last]) = length data_points).
      { by rewrite <- Hs, Hperm. }
      rewrite length_app in Hlen'. simpl in Hlen'.
      rewrite removelast_last, length_app. simpl.
      replace (length pre + 1 - 1) with (length pre) by lia.
      rewrite drop_app_length.
      split; apply histogram_lookup; simpl; try done; lia.
Qed.

Lemma X23_output_counts_split_before_last_sample_witness :
  let sorted := merge_sort pair_le demo_data in
  let result := determine_best_threshold demo_fraction 2 demo_data 0 in
  classes_l result !! 1 = Some (samples_of_class 1 (removelast sorted))
  /\ classes_r result !! 1
     = Some (samples_of_class 1 (drop (length sorted - 1) sorted)).
Proof.
  apply (X23_output_counts_split_before_last_sample demo_fraction 2
           demo_data 0 1).
  - lia.
  - repeat (constructor; [simpl; lia|]). constructor.
  - simpl. lia.
Defined.

End GiniMore.
